(** * Cycle-synchronised logging in the two Zephyr thread demos

    The repository holds two programs, [simple_thread/src/main.c] (three
    workers of different priority that print a status line) and
    [thread_1/src/main.c] (three workers that drive three LEDs).  Both share
    [sync_log_complete_cycle], a counter that prints a blank line once
    three workers have reported.

    The C functions are embedded as interaction trees over the Zephyr calls
    they make: a function body is an [itree zephyrE R], [while (1)] is
    [ITree.forever], and the kernel, the console and the GPIO driver are
    given meaning afterwards by a handler over an explicit [world].  Three
    readings of a tree are used:
    - [calls_of]: the calls one thread makes, whatever the kernel answers;
    - [run]: one thread run alone against the modelled kernel;
    - [sched]: several threads interleaved call by call. *)

From Stdlib Require Import ZArith List String Ascii Bool Lia DecimalString.
From ITree Require Import ITree Eq.Shallow.
Import ListNotations ITreeNotations.
Local Open Scope string_scope.
Local Open Scope list_scope.
Local Open Scope Z_scope.
Local Open Scope itree_scope.

Infix "+++" := String.append (right associativity, at level 60).

(** ** Text written with printk *)

(** The C escape [\n]. *)
Definition LF : string := String "010"%char EmptyString.

(** printk's [%d] conversion of an [int]. *)
Definition fmt_d (n : Z) : string := NilZero.string_of_int (Z.to_int n).

Fixpoint count_LF (s : string) : nat :=
  match s with
  | EmptyString => 0%nat
  | String c s' => ((if Ascii.eqb c "010" then 1 else 0) + count_LF s')%nat
  end.

Fixpoint ends_with_LF (s : string) : bool :=
  match s with
  | EmptyString => false
  | String c EmptyString => Ascii.eqb c "010"
  | String _ s' => ends_with_LF s'
  end.

(** One whole line: a single newline, and it is the last character. *)
Definition whole_line (s : string) : bool :=
  ends_with_LF s && Nat.eqb (count_LF s) 1.

(** ** The Zephyr interface *)

Module Zephyr.

(** Threads are numbered in creation order, [main] being thread 0. *)
Definition tid := nat.

(** Every call the two programs make into the kernel, the console, the GPIO
    driver, and every access to one of the LED demo's global variables
    through its address.  [sync_counter] and [sync_mutex] are the only
    atomic variable and the only mutex, so the calls on them carry no
    address.  [KSleep ms] stands for both [k_sleep(K_MSEC(ms))] and
    [k_msleep(ms)]; [KThreadCreate] keeps the entry point (by name) and
    the priority of [k_thread_create]. *)
Inductive zephyr_call : Type :=
| Printk (text : string)
| KSleep (ms : Z)
| AtomicInc
| AtomicGet
| AtomicSet (v : Z)
| KMutexInit
| KMutexLock
| KMutexUnlock
| KThreadCreate (entry : string) (prio : Z)
| DeviceIsReady (dev : Z)
| GpioPinConfigure (dev pin flags : Z)
| GpioPinSet (dev pin value : Z)
| GpioPinToggle (dev pin : Z)
| GpioPinGet (dev pin : Z)
| Load (x : string)
| Store (x : string) (v : Z).

(** A call answers with a C integer; a [void] function answers 0. *)
Variant zephyrE : Type -> Type :=
| Call (c : zephyr_call) : zephyrE Z.

Definition call (c : zephyr_call) : itree zephyrE Z := ITree.trigger (Call c).

Definition printk (text : string) := call (Printk text).
Definition K_MSEC (ms : Z) : Z := ms.
Definition k_sleep (timeout : Z) := call (KSleep timeout).
Definition k_msleep (ms : Z) := k_sleep (K_MSEC ms).
Definition atomic_inc := call AtomicInc.
Definition atomic_get := call AtomicGet.
Definition atomic_set (v : Z) := call (AtomicSet v).
Definition k_mutex_init := call KMutexInit.
Definition k_mutex_lock := call KMutexLock.
Definition k_mutex_unlock := call KMutexUnlock.
Definition k_thread_create (entry : string) (prio : Z) :=
  call (KThreadCreate entry prio).
Definition device_is_ready (dev : Z) : itree zephyrE bool :=
  r <- call (DeviceIsReady dev) ;; Ret (negb (r =? 0)).
Definition gpio_pin_configure (dev pin flags : Z) :=
  call (GpioPinConfigure dev pin flags).
Definition gpio_pin_set (dev pin value : Z) := call (GpioPinSet dev pin value).
Definition gpio_pin_toggle (dev pin : Z) := call (GpioPinToggle dev pin).
Definition gpio_pin_get (dev pin : Z) := call (GpioPinGet dev pin).
Definition load (x : string) := call (Load x).
Definition store (x : string) (v : Z) := call (Store x v).

(** C's [a || b]: [b] is evaluated only when [a] is false. *)
Definition c_or (a b : itree zephyrE bool) : itree zephyrE bool :=
  x <- a ;; if x then Ret true else b.

(** A devicetree GPIO specification ([struct gpio_dt_spec]). *)
Record gpio_dt_spec : Type := GpioDtSpec {
  port : Z;
  pin : Z;
  dt_flags : Z
}.

(** *** The modelled platform *)

(** What the programs cannot decide themselves: whether the console drops
    the n-th write handed to it, whether a GPIO port is ready, and the
    return code of [gpio_pin_configure]. *)
Record platform : Type := Platform {
  sink_fails : nat -> bool;
  device_ready : Z -> bool;
  configure_ret : Z -> Z -> Z -> Z
}.

(** Modelled from the spec: [atomic_inc / atomic_get / atomic_set] work on
    a counter of at least 16 bits; the typedef of [atomic_t] is in Zephyr's
    headers, not in the repository.  Zephyr declares it [long], taken here
    as the 32-bit two's complement integer of a microcontroller target. *)
Definition ATOMIC_BITS : Z := 32.

Definition wrap_atomic (x : Z) : Z :=
  (x + 2 ^ (ATOMIC_BITS - 1)) mod 2 ^ ATOMIC_BITS - 2 ^ (ATOMIC_BITS - 1).

Record event : Type := Ev {
  ev_tid : tid;
  ev_call : zephyr_call;
  ev_ret : Z
}.

(** The state the calls act on.  [sync_mutex] holds the owner and its lock
    count, [console] the texts that reached the console, [trace] every
    call made so far with its answer, [globals] the LED demo's global
    variables by name, [gpio_level] the logical level of each pin. *)
Record world : Type := World {
  sync_counter : Z;
  sync_mutex : option (tid * nat);
  console : list string;
  trace : list event;
  globals : string -> Z;
  gpio_level : Z -> Z -> bool
}.

(** Program start: C zero-initialises the globals, [ATOMIC_INIT(0)]. *)
Definition boot_world : world :=
  {| sync_counter := 0;
     sync_mutex := None;
     console := [];
     trace := [];
     globals := fun _ => 0;
     gpio_level := fun _ _ => false |}.

Definition is_printk (c : zephyr_call) : bool :=
  match c with Printk _ => true | _ => false end.
Definition is_sleep (c : zephyr_call) : bool :=
  match c with KSleep _ => true | _ => false end.
Definition is_atomic_inc (c : zephyr_call) : bool :=
  match c with AtomicInc => true | _ => false end.
Definition is_thread_create (c : zephyr_call) : bool :=
  match c with KThreadCreate _ _ => true | _ => false end.
Definition is_gpio_write (c : zephyr_call) : bool :=
  match c with
  | GpioPinConfigure _ _ _ | GpioPinSet _ _ _ | GpioPinToggle _ _ => true
  | _ => false
  end.
Definition is_separator (c : zephyr_call) : bool :=
  match c with Printk s => String.eqb s LF | _ => false end.

Definition calls (w : world) : list zephyr_call := map ev_call (trace w).

(** Texts handed to printk, delivered or not. *)
Fixpoint printed (cs : list zephyr_call) : list string :=
  match cs with
  | [] => []
  | Printk s :: cs' => s :: printed cs'
  | _ :: cs' => printed cs'
  end.

Definition count (f : zephyr_call -> bool) (cs : list zephyr_call) : nat :=
  List.length (filter f cs).

Definition log (t : tid) (c : zephyr_call) (r : Z) (w : world) : world :=
  {| sync_counter := sync_counter w; sync_mutex := sync_mutex w;
     console := console w; trace := trace w ++ [Ev t c r];
     globals := globals w; gpio_level := gpio_level w |}.

Definition set_counter (v : Z) (w : world) : world :=
  {| sync_counter := v; sync_mutex := sync_mutex w;
     console := console w; trace := trace w;
     globals := globals w; gpio_level := gpio_level w |}.

Definition set_mutex (m : option (tid * nat)) (w : world) : world :=
  {| sync_counter := sync_counter w; sync_mutex := m;
     console := console w; trace := trace w;
     globals := globals w; gpio_level := gpio_level w |}.

(** The console receives [s], unless the write is dropped. *)
Definition write_console (dropped : bool) (s : string) (w : world) : world :=
  {| sync_counter := sync_counter w; sync_mutex := sync_mutex w;
     console := console w ++ (if dropped then [] else [s]);
     trace := trace w;
     globals := globals w; gpio_level := gpio_level w |}.

Definition set_global (x : string) (v : Z) (w : world) : world :=
  {| sync_counter := sync_counter w; sync_mutex := sync_mutex w;
     console := console w; trace := trace w;
     globals := fun y => if String.eqb y x then v else globals w y;
     gpio_level := gpio_level w |}.

Definition set_level (dev pin : Z) (b : bool) (w : world) : world :=
  {| sync_counter := sync_counter w; sync_mutex := sync_mutex w;
     console := console w; trace := trace w;
     globals := globals w;
     gpio_level := fun d p =>
       if (d =? dev) && (p =? pin) then b else gpio_level w d p |}.

(** Modelled from the spec: the kernel, the console and the GPIO driver
    are Zephyr's, not the repository's; their effect follows the external
    interfaces the spec lists (atomic read-modify-write on the counter, a
    mutex with blocking acquire, line-oriented console output that may drop
    a write, sleep, spawn, pin configure / set / toggle / read).

    The effect and the answer of one call made by thread [t]; [None] when
    the call cannot proceed yet, which only [k_mutex_lock(K_FOREVER)] on a
    mutex held by another thread does.  The mutex is Zephyr's reentrant
    one: it counts the locks of its owner, and unlocking it answers -EINVAL
    (-22) when it is free and -EPERM (-1) when another thread owns it.
    The call is logged after it took effect. *)
Definition handle (P : platform) (t : tid) (c : zephyr_call) (w : world)
  : option (Z * world) :=
  match c with
  | Printk s =>
      let dropped := sink_fails P (count is_printk (calls w)) in
      Some (0, log t c 0 (write_console dropped s w))
  | KSleep _ => Some (0, log t c 0 w)
  | AtomicInc =>
      let old := sync_counter w in
      Some (old, log t c old (set_counter (wrap_atomic (old + 1)) w))
  | AtomicGet => Some (sync_counter w, log t c (sync_counter w) w)
  | AtomicSet v =>
      let old := sync_counter w in
      Some (old, log t c old (set_counter v w))
  | KMutexInit => Some (0, log t c 0 (set_mutex None w))
  | KMutexLock =>
      match sync_mutex w with
      | None => Some (0, log t c 0 (set_mutex (Some (t, 1%nat)) w))
      | Some (o, n) =>
          if Nat.eqb o t then Some (0, log t c 0 (set_mutex (Some (t, S n)) w))
          else None
      end
  | KMutexUnlock =>
      match sync_mutex w with
      | None => Some (-22, log t c (-22) w)
      | Some (o, n) =>
          if Nat.eqb o t then
            Some (0, log t c 0
                       (set_mutex (match n with
                                   | S (S n') => Some (t, S n')
                                   | _ => None
                                   end) w))
          else Some (-1, log t c (-1) w)
      end
  | KThreadCreate _ _ => Some (0, log t c 0 w)
  | DeviceIsReady dev =>
      let r := if device_ready P dev then 1 else 0 in Some (r, log t c r w)
  | GpioPinConfigure dev pin flags =>
      let r := configure_ret P dev pin flags in Some (r, log t c r w)
  | GpioPinSet dev pin v =>
      Some (0, log t c 0 (set_level dev pin (negb (v =? 0)) w))
  | GpioPinToggle dev pin =>
      Some (0, log t c 0 (set_level dev pin (negb (gpio_level w dev pin)) w))
  | GpioPinGet dev pin =>
      let r := if gpio_level w dev pin then 1 else 0 in Some (r, log t c r w)
  | Load x => Some (globals w x, log t c (globals w x) w)
  | Store x v => Some (0, log t c 0 (set_global x v w))
  end.

(** *** Three readings of a program *)

(** The calls a thread makes when the n-th call is answered [ans n]: the
    thread's own view, valid under any scheduling and any platform.  [fuel]
    bounds the number of calls and loop turns followed. *)
Fixpoint calls_of (ans : nat -> Z) (n fuel : nat) {R} (p : itree zephyrE R)
  : list zephyr_call * option R :=
  match observe p with
  | RetF r => ([], Some r)
  | TauF p' =>
      match fuel with
      | O => ([], None)
      | S f => calls_of ans n f p'
      end
  | VisF e k =>
      match fuel with
      | O => ([], None)
      | S f =>
          match e in zephyrE T return (T -> itree zephyrE R) -> _ with
          | Call c => fun k' =>
              let (cs, r) := calls_of ans (S n) f (k' (ans n)) in (c :: cs, r)
          end k
      end
  end.

(** Thread [t] run alone from [w]: [Some] with the result once the program
    returns within [fuel] calls and loop turns. *)
Fixpoint run (P : platform) (t : tid) (fuel : nat) {R} (p : itree zephyrE R)
  (w : world) : option (R * world) :=
  match observe p with
  | RetF r => Some (r, w)
  | TauF p' =>
      match fuel with
      | O => None
      | S f => run P t f p' w
      end
  | VisF e k =>
      match fuel with
      | O => None
      | S f =>
          match e in zephyrE T return (T -> itree zephyrE R) -> _ with
          | Call c => fun k' =>
              match handle P t c w with
              | Some (a, w') => run P t f (k' a) w'
              | None => None
              end
          end k
      end
  end.

(** A thread's remaining code. *)
Definition thread : Type := itree zephyrE unit.

Record config : Type := Config {
  cfg_world : world;
  cfg_pool : list thread
}.

Fixpoint set_nth {A} (i : nat) (x : A) (l : list A) : list A :=
  match l, i with
  | [], _ => []
  | _ :: l', O => x :: l'
  | y :: l', S i' => y :: set_nth i' x l'
  end.

(** A created thread joins the pool with the code of its entry point. *)
Definition spawn (code : string -> thread) (c : zephyr_call)
  (pool : list thread) : list thread :=
  match c with
  | KThreadCreate entry _ => pool ++ [code entry]
  | _ => pool
  end.

(** Thread [t] makes its next step: one call, or one loop turn.  [None]
    when [t] does not exist, has returned, or is blocked on the mutex. *)
Definition sched_step (P : platform) (code : string -> thread) (t : tid)
  (cfg : config) : option config :=
  match nth_error (cfg_pool cfg) t with
  | None => None
  | Some p =>
      match observe p with
      | RetF _ => None
      | TauF p' => Some (Config (cfg_world cfg) (set_nth t p' (cfg_pool cfg)))
      | VisF e k =>
          match e in zephyrE T return (T -> thread) -> _ with
          | Call c => fun k' =>
              match handle P t c (cfg_world cfg) with
              | Some (a, w') =>
                  Some (Config w'
                          (spawn code c (set_nth t (k' a) (cfg_pool cfg))))
              | None => None
              end
          end k
      end
  end.

(** A schedule names the thread that steps next. *)
Fixpoint sched (P : platform) (code : string -> thread) (schedule : list tid)
  (cfg : config) : option config :=
  match schedule with
  | [] => Some cfg
  | t :: rest =>
      match sched_step P code t cfg with
      | Some cfg' => sched P code rest cfg'
      | None => None
      end
  end.

End Zephyr.

(** ** simple_thread/src/main.c: the priority demo *)

Module SimpleThread.
Import Zephyr.

Definition THREAD_PRIORITY_1 : Z := -1.
Definition THREAD_PRIORITY_2 : Z := -2.

Definition sync_log_complete_cycle : itree zephyrE unit :=
  atomic_inc ;;
  c <- atomic_get ;;
  if c >=? 3 then
    k_mutex_lock ;;
    atomic_set 0 ;;
    printk LF ;;
    k_mutex_unlock ;;
    Ret tt
  else Ret tt.

(** The body of thread1_fn's [while (1)]. *)
Definition thread1_fn_body : itree zephyrE unit :=
  printk ("[T1] Low-priority thread (P:-1) running..." +++ LF) ;;
  sync_log_complete_cycle ;;
  k_sleep (K_MSEC 700) ;;
  Ret tt.

Definition thread1_fn : thread := ITree.forever thread1_fn_body.

Definition thread2_fn_body : itree zephyrE unit :=
  printk ("[T2] High-priority thread (P:-2) working..." +++ LF) ;;
  sync_log_complete_cycle ;;
  k_sleep (K_MSEC 1200) ;;
  Ret tt.

Definition thread2_fn : thread := ITree.forever thread2_fn_body.

(** The body of main's [while (1)]: main is the third worker. *)
Definition main_body : itree zephyrE unit :=
  printk ("[MAIN] Monitoring system..." +++ LF) ;;
  sync_log_complete_cycle ;;
  k_sleep (K_MSEC 2000) ;;
  Ret tt.

Definition main : itree zephyrE Z :=
  printk ("[MAIN] Starting Preemptive Thread Demo" +++ LF) ;;
  k_mutex_init ;;
  k_thread_create "thread1_fn" THREAD_PRIORITY_1 ;;
  printk ("[MAIN] Thread 1 created (P:-1)" +++ LF) ;;
  k_thread_create "thread2_fn" THREAD_PRIORITY_2 ;;
  printk ("[MAIN] Thread 2 created (P:-2)" +++ LF) ;;
  ITree.forever main_body.

(** The entry points handed to k_thread_create. *)
Definition code (entry : string) : thread :=
  if String.eqb entry "thread1_fn" then thread1_fn
  else if String.eqb entry "thread2_fn" then thread2_fn
  else Ret tt.

(** The program at start: main alone, as thread 0. *)
Definition boot : config :=
  Config boot_world [main ;; Ret tt].

End SimpleThread.

(** ** thread_1/src/main.c: the LED demo *)

Module Thread1.
Import Zephyr.

Definition PRIORITY : Z := 5.

Definition sync_log_complete_cycle : itree zephyrE unit :=
  atomic_inc ;;
  c <- atomic_get ;;
  if c >=? 3 then
    k_mutex_lock ;;
    atomic_set 0 ;;
    printk LF ;;
    k_mutex_unlock ;;
    Ret tt
  else Ret tt.

Section Board.

(** The board's part: the value of the macro [GPIO_OUTPUT_INACTIVE] and the
    devicetree entries behind the aliases led0, led1, led2. *)
Variable GPIO_OUTPUT_INACTIVE : Z.
Variables led0_spec led1_spec led2_spec : gpio_dt_spec.

(** [dev] and [pin] are the addresses of two global variables, given by
    the variables' names. *)
Definition init_led (dev pin : string) (led_spec : gpio_dt_spec)
  : itree zephyrE Z :=
  ready <- device_is_ready (port led_spec) ;;
  if negb ready then
    printk ("[INIT] Error: LED device not ready" +++ LF) ;;
    Ret (-1)
  else
    store dev (port led_spec) ;;
    store pin (Zephyr.pin led_spec) ;;
    d <- load dev ;;
    p <- load pin ;;
    ret <- gpio_pin_configure d p
             (Z.lor GPIO_OUTPUT_INACTIVE (dt_flags led_spec)) ;;
    if ret <? 0 then
      p <- load pin ;;
      printk ("[INIT] Error configuring pin " +++ fmt_d p +++ LF) ;;
      Ret ret
    else
      d <- load dev ;;
      p <- load pin ;;
      gpio_pin_set d p 0 ;;
      Ret 0.

Definition main : itree zephyrE Z :=
  printk ("[MAIN] Starting LED thread demo" +++ LF) ;;
  failed <-
    c_or (c_or (r <- init_led "led0_dev" "led0_pin" led0_spec ;;
                Ret (r <? 0))
               (r <- init_led "led1_dev" "led1_pin" led1_spec ;;
                Ret (r <? 0)))
         (r <- init_led "led2_dev" "led2_pin" led2_spec ;;
          Ret (r <? 0)) ;;
  if failed : bool then
    printk ("[MAIN] LED initialization failed" +++ LF) ;;
    Ret 0
  else
    k_mutex_init ;;
    p0 <- load "led0_pin" ;;
    printk ("[LED0] Initialized on pin " +++ fmt_d p0 +++ LF) ;;
    p1 <- load "led1_pin" ;;
    printk ("[LED1] Initialized on pin " +++ fmt_d p1 +++ LF) ;;
    p2 <- load "led2_pin" ;;
    printk ("[LED2] Initialized on pin " +++ fmt_d p2 +++ LF +++ LF) ;;
    printk ("[T1] LED0 thread started (500ms toggle)" +++ LF) ;;
    k_thread_create "led0_thread" PRIORITY ;;
    printk ("[T2] LED1 thread started (200ms toggle)" +++ LF) ;;
    k_thread_create "led1_thread" PRIORITY ;;
    printk ("[T3] LED2 thread started (burst 2x then 800ms rest)"
            +++ LF +++ LF) ;;
    k_thread_create "led2_thread" PRIORITY ;;
    Ret 0.

(** The program at start: main alone, as thread 0. *)
Definition boot : config :=
  Config boot_world [main ;; Ret tt].

End Board.

(** The body of led0_thread's [while (1)]. *)
Definition led0_thread_body : itree zephyrE unit :=
  d <- load "led0_dev" ;;
  p <- load "led0_pin" ;;
  gpio_pin_toggle d p ;;
  d <- load "led0_dev" ;;
  p <- load "led0_pin" ;;
  r <- gpio_pin_get d p ;;
  let state := negb (r =? 0) in
  printk ("[T1] LED0 is now " +++ (if state then "ON" else "OFF")
          +++ " | [T1] sleep 500ms" +++ LF) ;;
  sync_log_complete_cycle ;;
  k_msleep 500 ;;
  Ret tt.

Definition led0_thread : thread := ITree.forever led0_thread_body.

Definition led1_thread_body : itree zephyrE unit :=
  d <- load "led1_dev" ;;
  p <- load "led1_pin" ;;
  gpio_pin_toggle d p ;;
  d <- load "led1_dev" ;;
  p <- load "led1_pin" ;;
  r <- gpio_pin_get d p ;;
  let state := negb (r =? 0) in
  printk ("[T2] LED1 is now " +++ (if state then "ON" else "OFF")
          +++ " | [T2] sleep 200ms" +++ LF) ;;
  sync_log_complete_cycle ;;
  k_msleep 200 ;;
  Ret tt.

Definition led1_thread : thread := ITree.forever led1_thread_body.

Definition led2_thread_body : itree zephyrE unit :=
  d <- load "led2_dev" ;;
  p <- load "led2_pin" ;;
  gpio_pin_set d p 1 ;;
  printk "[T3] Blink 1: LED2 ON | " ;;
  k_msleep 100 ;;
  d <- load "led2_dev" ;;
  p <- load "led2_pin" ;;
  gpio_pin_set d p 0 ;;
  printk ("[T3] Blink 2: LED2 OFF | [T3] sleep 800ms" +++ LF) ;;
  sync_log_complete_cycle ;;
  k_msleep 800 ;;
  Ret tt.

Definition led2_thread : thread := ITree.forever led2_thread_body.

Definition code (entry : string) : thread :=
  if String.eqb entry "led0_thread" then led0_thread
  else if String.eqb entry "led1_thread" then led1_thread
  else if String.eqb entry "led2_thread" then led2_thread
  else Ret tt.

End Thread1.

(** ** The notions the properties are stated with *)

Import Zephyr.

(** *** The barrier used sequentially *)

(** The threads of [ts] call [arrive] (one of the two copies of
    sync_log_complete_cycle) one after the other, each call running to
    its return before the next starts.  A call makes at most six calls
    into the kernel. *)
Fixpoint arrive_seq (P : platform) (arrive : itree zephyrE unit)
  (ts : list tid) (w : world) : option world :=
  match ts with
  | [] => Some w
  | t :: ts' =>
      match run P t 6 arrive w with
      | Some (_, w') => arrive_seq P arrive ts' w'
      | None => None
      end
  end.

(** The barrier's own state: the counter and the mutex. *)
Definition barrier_state (w : world) : Z * option (tid * nat) :=
  (sync_counter w, sync_mutex w).

(** Separator lines handed to printk so far. *)
Definition separators (w : world) : nat := count is_separator (calls w).

(** Calls of sync_log_complete_cycle begun so far: each begins with the
    only atomic_inc of the program. *)
Definition arrivals (w : world) : nat := count is_atomic_inc (calls w).

(** A console that drops nothing, on a board whose LEDs initialise. *)
Definition reliable : platform :=
  Platform (fun _ => false) (fun _ => true) (fun _ _ _ => 0).

(** A console that drops every write. *)
Definition deaf (ready : Z -> bool) (conf : Z -> Z -> Z -> Z) : platform :=
  Platform (fun _ => true) ready conf.

(** What reaches the console of the texts [l] handed to printk, the first
    of them being write number [n]. *)
Fixpoint delivered_from (P : platform) (n : nat) (l : list string)
  : list string :=
  match l with
  | [] => []
  | s :: l' =>
      (if sink_fails P n then [] else [s]) ++ delivered_from P (S n) l'
  end.

Definition delivered (P : platform) (l : list string) : list string :=
  delivered_from P 0 l.

(** The console holds exactly the writes the sink did not drop. *)
Definition console_ok (P : platform) (w : world) : Prop :=
  console w = delivered P (printed (calls w)).

(** *** The barrier under preemption *)

(** What a re-check under the lock would guarantee: whenever the counter is
    reset, the value it held at that moment, which atomic_set returns, had
    reached the three participants. *)
Definition resets_rechecked (tr : list event) : Prop :=
  forall e, In e tr -> ev_call e = AtomicSet 0 -> 3 <= ev_ret e.

(** A schedule of the priority demo.  main (thread 0) writes its banner,
    initialises the mutex and creates T1 (thread 1), which runs its first
    loop turn at once; main goes on and creates T2 (thread 2), which runs
    its first loop turn; main enters its loop, prints, increments the
    counter to 3 and reads it; there T1 wakes, preempts main and completes
    a loop turn of its own, firing the barrier; main resumes behind its
    threshold test. *)
Definition race_schedule : list tid :=
  (repeat 0 3 ++ repeat 1 5 ++ repeat 0 2 ++ repeat 2 5 ++ repeat 0 4
   ++ repeat 1 9 ++ repeat 0 5)%nat.

Definition race_end : option config :=
  sched reliable SimpleThread.code race_schedule SimpleThread.boot.

(** The world that schedule ends in. *)
Definition race_world : world :=
  match race_end with
  | Some cfg => cfg_world cfg
  | None => boot_world
  end.

(** The priority demo scheduled without preemption: start-up as in
    [race_schedule], then main's first loop turn, which fires the barrier. *)
Definition calm_schedule : list tid :=
  (repeat 0 3 ++ repeat 1 5 ++ repeat 0 2 ++ repeat 2 5 ++ repeat 0 9)%nat.

(** *** One loop turn of a worker *)

(** What follows the threshold test of sync_log_complete_cycle when the
    counter was read as [c]. *)
Definition fire_calls (c : Z) : list zephyr_call :=
  if c >=? 3 then [KMutexLock; AtomicSet 0; Printk LF; KMutexUnlock] else [].

(** The status line of the LED workers T1 and T2. *)
Definition led_status (label led period : string) (level : Z) : string :=
  "[" +++ label +++ "] " +++ led +++ " is now "
  +++ (if negb (level =? 0) then "ON" else "OFF")
  +++ " | [" +++ label +++ "] sleep " +++ period +++ LF.

Record worker : Type := Worker {
  w_label : string;
  w_body : itree zephyrE unit;
  w_arrive : itree zephyrE unit;
  w_period : Z;
  w_logs : nat
}.

Definition priority_T1 : worker :=
  Worker "T1" SimpleThread.thread1_fn_body
         SimpleThread.sync_log_complete_cycle 700 1.
Definition priority_T2 : worker :=
  Worker "T2" SimpleThread.thread2_fn_body
         SimpleThread.sync_log_complete_cycle 1200 1.
Definition priority_MAIN : worker :=
  Worker "MAIN" SimpleThread.main_body
         SimpleThread.sync_log_complete_cycle 2000 1.
Definition led_T1 : worker :=
  Worker "T1" Thread1.led0_thread_body Thread1.sync_log_complete_cycle 500 1.
Definition led_T2 : worker :=
  Worker "T2" Thread1.led1_thread_body Thread1.sync_log_complete_cycle 200 1.
Definition led_T3 : worker :=
  Worker "T3" Thread1.led2_thread_body Thread1.sync_log_complete_cycle 800 2.

Definition priority_demo_workers : list worker :=
  [priority_T1; priority_T2; priority_MAIN].
Definition led_demo_workers : list worker := [led_T1; led_T2; led_T3].

(** The calls of one loop turn when the kernel answers [ans]. *)
Definition turn (ans : nat -> Z) (wk : worker) : list zephyr_call :=
  fst (calls_of ans 0 32 (w_body wk)).

(** The calls of the first [k] loop turns of [body], the first of these
    calls being call number [n] of the thread. *)
Fixpoint turns (ans : nat -> Z) (n k : nat) (body : itree zephyrE unit)
  : list zephyr_call :=
  match k with
  | O => []
  | S k' =>
      let cs := fst (calls_of ans n 32 body) in
      cs ++ turns ans (n + List.length cs) k' body
  end.

(** The worker's action: its calls before sync_log_complete_cycle begins. *)
Fixpoint before_arrival (cs : list zephyr_call) : list zephyr_call :=
  match cs with
  | [] => []
  | c :: cs' => if is_atomic_inc c then [] else c :: before_arrival cs'
  end.

(** The worker's action does not sleep: the only sleep of a loop turn is
    the one for the period. *)
Definition sleeps_only_for_period (wk : worker) : Prop :=
  forall ans,
    filter is_sleep (before_arrival (turn ans wk)) = [] /\
    filter is_sleep (turn ans wk) = [KSleep (w_period wk)].

(** Each write of a loop turn passes one whole line. *)
Definition writes_whole_lines (wk : worker) : Prop :=
  forall ans, forallb whole_line (printed (turn ans wk)) = true.

(** *** Initialisation of the LEDs *)

Section Init.
Variable P : platform.
Variable GPIO_OUTPUT_INACTIVE : Z.

Definition configure_flags (s : gpio_dt_spec) : Z :=
  Z.lor GPIO_OUTPUT_INACTIVE (dt_flags s).

(** The platform lets the LED of [s] initialise: its port is ready and
    configuring its pin reports no error. *)
Definition init_ok (s : gpio_dt_spec) : bool :=
  device_ready P (port s)
  && negb (configure_ret P (port s) (pin s) (configure_flags s) <? 0).

(** The error line init_led prints for an LED that fails. *)
Definition init_error_line (s : gpio_dt_spec) : string :=
  if device_ready P (port s)
  then "[INIT] Error configuring pin " +++ fmt_d (pin s) +++ LF
  else "[INIT] Error: LED device not ready" +++ LF.

(** The driver operations and the stores that initialising one LED
    amounts to. *)
Definition init_gpio_writes (s : gpio_dt_spec) : list zephyr_call :=
  if device_ready P (port s) then
    GpioPinConfigure (port s) (pin s) (configure_flags s)
    :: (if init_ok s then [GpioPinSet (port s) (pin s) 0] else [])
  else [].

Definition init_stores (dev pin : string) (s : gpio_dt_spec)
  : list zephyr_call :=
  if device_ready P (port s)
  then [Store dev (port s); Store pin (Zephyr.pin s)]
  else [].

(** The LEDs main initialises: the two globals handed to init_led by
    address, and the devicetree entry. *)
Definition led : Type := (string * string * gpio_dt_spec)%type.

(** The LEDs init_led is called for: in order, up to and including the
    first that fails. *)
Fixpoint tried (leds : list led) : list led :=
  match leds with
  | [] => []
  | (dev, pin, s) :: rest =>
      (dev, pin, s) :: (if init_ok s then tried rest else [])
  end.

(** The first LED that fails to initialise, if any. *)
Definition first_failure (leds : list led) : option led :=
  find (fun l => negb (init_ok (snd l))) leds.

End Init.

Definition board_leds (led0_spec led1_spec led2_spec : gpio_dt_spec)
  : list led :=
  [("led0_dev", "led0_pin", led0_spec);
   ("led1_dev", "led1_pin", led1_spec);
   ("led2_dev", "led2_pin", led2_spec)].

(** The board of scenario S6: every port is ready, configuring pin 1
    reports the error -5. *)
Definition led1_broken : platform :=
  Platform (fun _ => false) (fun _ => true)
           (fun _ pin _ => if pin =? 1 then -5 else 0).

(** A board on which the port at address 2 is not ready. *)
Definition port2_unready : platform :=
  Platform (fun _ => false) (fun dev => negb (dev =? 2)) (fun _ _ _ => 0).

Definition is_store (c : zephyr_call) : bool :=
  match c with Store _ _ => true | _ => false end.

Definition is_init_error (s : string) : bool := prefix "[INIT] Error" s.

(** A sample board: LED n on pin n of the port at address n + 1, and the
    value Zephyr 3 gives GPIO_OUTPUT_INACTIVE. *)
Definition sample_led (n : Z) : gpio_dt_spec := GpioDtSpec (n + 1) n 0.
Definition sample_output_inactive : Z :=
  Z.lor (Z.shiftl 1 17) (Z.lor (Z.shiftl 1 18) (Z.shiftl 1 20)).

(** *** The worker threads, turn after turn *)

(** The calls of the loop turn that begins with the thread's call number
    [n]. *)
Definition turn_at (ans : nat -> Z) (n : nat) (wk : worker)
  : list zephyr_call :=
  fst (calls_of ans n 32 (w_body wk)).

(** The call of sync_log_complete_cycle a loop turn makes once its action
    is over: its calls, and its return. *)
Definition arrival_at (ans : nat -> Z) (n : nat) (wk : worker)
  : list zephyr_call * option unit :=
  calls_of ans (n + List.length (before_arrival (turn_at ans n wk))) 6
           (w_arrive wk).

(** A thread function of the program and the worker it runs: the calls it
    makes before its [while (1)], and the loop. *)
Record worker_thread : Type := WorkerThread {
  wt_result : Type;
  wt_code : itree zephyrE wt_result;
  wt_startup : list zephyr_call;
  wt_worker : worker
}.

Definition priority_main_startup : list zephyr_call :=
  [Printk ("[MAIN] Starting Preemptive Thread Demo" +++ LF);
   KMutexInit;
   KThreadCreate "thread1_fn" SimpleThread.THREAD_PRIORITY_1;
   Printk ("[MAIN] Thread 1 created (P:-1)" +++ LF);
   KThreadCreate "thread2_fn" SimpleThread.THREAD_PRIORITY_2;
   Printk ("[MAIN] Thread 2 created (P:-2)" +++ LF)].

Definition thread1_fn_worker : worker_thread :=
  WorkerThread unit SimpleThread.thread1_fn [] priority_T1.
Definition thread2_fn_worker : worker_thread :=
  WorkerThread unit SimpleThread.thread2_fn [] priority_T2.
Definition main_worker : worker_thread :=
  WorkerThread Z SimpleThread.main priority_main_startup priority_MAIN.
Definition led0_thread_worker : worker_thread :=
  WorkerThread unit Thread1.led0_thread [] led_T1.
Definition led1_thread_worker : worker_thread :=
  WorkerThread unit Thread1.led1_thread [] led_T2.
Definition led2_thread_worker : worker_thread :=
  WorkerThread unit Thread1.led2_thread [] led_T3.

Definition priority_demo_threads : list worker_thread :=
  [thread1_fn_worker; thread2_fn_worker; main_worker].
Definition led_demo_threads : list worker_thread :=
  [led0_thread_worker; led1_thread_worker; led2_thread_worker].

(** The thread function is its worker at work: after its start-up calls
    it makes the calls of the worker's loop body, turn after turn, for as
    many turns as one cares to follow. *)
Definition runs_turns (wt : worker_thread) : Prop :=
  forall ans k,
  exists rest,
    fst (calls_of ans 0 (List.length (wt_startup wt) + 33 * k) (wt_code wt))
    = wt_startup wt
      ++ turns ans (List.length (wt_startup wt)) k (w_body (wt_worker wt))
      ++ rest.

(** [ok] holds of every loop turn the thread function makes: the thread
    runs the worker's loop body turn after turn, and [ok] holds of a turn
    of that body wherever in the thread's life it begins and whatever the
    kernel answers. *)
Definition in_every_turn (wt : worker_thread)
  (ok : (nat -> Z) -> nat -> worker -> Prop) : Prop :=
  runs_turns wt /\ forall ans n, ok ans n (wt_worker wt).

(** The loop turn is the action, which ends with a write and holds the
    worker's [w_logs] writes, then one whole call of
    sync_log_complete_cycle, then the sleep for the period. *)
Definition arrives_once_at (ans : nat -> Z) (n : nat) (wk : worker) : Prop :=
  let cs := turn_at ans n wk in
  let action := before_arrival cs in
  snd (calls_of ans n 32 (w_body wk)) = Some tt /\
  snd (arrival_at ans n wk) = Some tt /\
  cs = action ++ fst (arrival_at ans n wk) ++ [KSleep (w_period wk)] /\
  count is_atomic_inc cs = 1%nat /\
  count is_atomic_inc (fst (arrival_at ans n wk)) = 1%nat /\
  count is_printk action = w_logs wk /\
  is_printk (last action KMutexInit) = true.

(** The only sleep of the loop turn is its last call, made once the call
    of sync_log_complete_cycle has returned: neither the action nor that
    call sleeps. *)
Definition sleeps_after_arrival_at (ans : nat -> Z) (n : nat) (wk : worker)
  : Prop :=
  let cs := turn_at ans n wk in
  let action := before_arrival cs in
  snd (arrival_at ans n wk) = Some tt /\
  cs = action ++ fst (arrival_at ans n wk) ++ [KSleep (w_period wk)] /\
  filter is_sleep action = [] /\
  filter is_sleep (fst (arrival_at ans n wk)) = [] /\
  filter is_sleep cs = [KSleep (w_period wk)].

(** Each write of the loop turn passes one whole line. *)
Definition whole_lines_at (ans : nat -> Z) (n : nat) (wk : worker) : Prop :=
  forallb whole_line (printed (turn_at ans n wk)) = true.

(** The two texts led2_thread writes per loop turn. *)
Definition led2_on_text : string := "[T3] Blink 1: LED2 ON | ".
Definition led2_off_text : string :=
  "[T3] Blink 2: LED2 OFF | [T3] sleep 800ms" +++ LF.

(** The loop turn of the burst worker: it switches its LED on, writes the
    first text, sleeps 100 ms, switches the LED off, writes the second
    text, makes one whole call of sync_log_complete_cycle, which neither
    sleeps nor writes anything but a whole line, and sleeps for its
    period. *)
Definition burst_turn_at (ans : nat -> Z) (n : nat) (wk : worker) : Prop :=
  let arrival := calls_of ans (n + 9) 6 (w_arrive wk) in
  snd arrival = Some tt /\
  turn_at ans n wk =
    [Load "led2_dev"; Load "led2_pin";
     GpioPinSet (ans n) (ans (n + 1)%nat) 1;
     Printk led2_on_text;
     KSleep 100;
     Load "led2_dev"; Load "led2_pin";
     GpioPinSet (ans (n + 5)%nat) (ans (n + 6)%nat) 0;
     Printk led2_off_text]
    ++ fst arrival ++ [KSleep (w_period wk)] /\
  count is_atomic_inc (fst arrival) = 1%nat /\
  filter is_sleep (fst arrival) = [] /\
  forallb whole_line (printed (fst arrival)) = true.

(** What the barrier leaves of a counter that held [c] when a thread
    arrived, and the separator that arrival hands to printk. *)
Definition counter_after (c : Z) : Z :=
  if wrap_atomic (c + 1) >=? 3 then 0 else wrap_atomic (c + 1).
Definition separator_after (c : Z) : list string :=
  if wrap_atomic (c + 1) >=? 3 then [LF] else [].

(** The LED demo on the sample board, scheduled so that T1 runs while T3
    sleeps between its two writes: main (thread 0) starts up and returns,
    T3 (thread 3) switches LED2 on, writes its first text and sleeps, T1
    (thread 1) makes its first loop turn, T3 goes on to the end of its
    own. *)
Definition split_schedule : list tid :=
  (repeat 0 41 ++ repeat 3 5 ++ repeat 1 10 ++ repeat 3 7)%nat.

Definition split_world : world :=
  match sched reliable Thread1.code split_schedule
          (Thread1.boot sample_output_inactive
             (sample_led 0) (sample_led 1) (sample_led 2))
  with
  | Some cfg => cfg_world cfg
  | None => boot_world
  end.

(** *** The programs against the kernel, from any state *)

Definition is_mutex_init (c : zephyr_call) : bool :=
  match c with KMutexInit => true | _ => false end.

(** Calls that belong to start-up: stores to the LED globals, the
    initialisation of the mutex, thread creation, the readiness check and
    the configuration of a pin. *)
Definition is_setup (c : zephyr_call) : bool :=
  match c with
  | Store _ _ | KMutexInit | KThreadCreate _ _ | DeviceIsReady _
  | GpioPinConfigure _ _ _ => true
  | _ => false
  end.

(** The loop turn makes no start-up call. *)
Definition no_setup_at (ans : nat -> Z) (n : nat) (wk : worker) : Prop :=
  filter is_setup (turn_at ans n wk) = [].

(** The calls init_led makes for an LED that initialises. *)
Definition init_led_calls (G : Z) (dev pin : string) (s : gpio_dt_spec)
  : list zephyr_call :=
  [DeviceIsReady (port s); Store dev (port s); Store pin (Zephyr.pin s);
   Load dev; Load pin;
   GpioPinConfigure (port s) (Zephyr.pin s) (configure_flags G s);
   Load dev; Load pin;
   GpioPinSet (port s) (Zephyr.pin s) 0].

(** The pin being that of the LED the globals [dev] and [pin] name. *)
Definition is_led (w : world) (dev pin : string) (d p : Z) : bool :=
  (d =? globals w dev) && (p =? globals w pin).

(** One loop turn of an LED worker that toggles: run by thread [t] from
    [w], it returns, has written the status line of the level the pin now
    has and has inverted that pin alone. *)
Definition toggles_and_reports (P : platform) (t : tid) (w : world)
  (body : itree zephyrE unit) (dev pin label led period : string) : Prop :=
  exists w',
    run P t 32 body w = Some (tt, w') /\
    printed (calls w') =
      printed (calls w)
      ++ led_status label led period
           (Z.b2z (negb (gpio_level w (globals w dev) (globals w pin))))
         :: separator_after (sync_counter w) /\
    (forall d p,
       gpio_level w' d p =
         if is_led w dev pin d p
         then negb (gpio_level w (globals w dev) (globals w pin))
         else gpio_level w d p) /\
    (forall x, globals w' x = globals w x) /\
    sync_counter w' = counter_after (sync_counter w) /\
    sync_mutex w' = None.

(** Two loop turns in a row of such a worker: the two status lines report
    opposite levels and every pin is back at the level it had. *)
Definition restores_after_two_turns (P : platform) (t : tid) (w : world)
  (body : itree zephyrE unit) (dev pin label led period : string) : Prop :=
  let level := gpio_level w (globals w dev) (globals w pin) in
  exists w1 w2,
    run P t 32 body w = Some (tt, w1) /\
    run P t 32 body w1 = Some (tt, w2) /\
    printed (calls w2) =
      printed (calls w)
      ++ led_status label led period (Z.b2z (negb level))
         :: separator_after (sync_counter w)
      ++ led_status label led period (Z.b2z level)
         :: separator_after (counter_after (sync_counter w)) /\
    (forall d p, gpio_level w2 d p = gpio_level w d p) /\
    (forall x, globals w2 x = globals w x).


(** ** Reasoning about the three readings *)

Ltac unfold_api :=
  unfold printk, k_msleep, k_sleep, K_MSEC, atomic_inc, atomic_get, atomic_set,
    k_mutex_init, k_mutex_lock, k_mutex_unlock, k_thread_create,
    device_is_ready, gpio_pin_configure, gpio_pin_set, gpio_pin_toggle,
    gpio_pin_get, load, store, c_or.

Section CallsOf.
Variable ans : nat -> Z.

Lemma calls_of_ret n f R (r : R) : calls_of ans n f (Ret r) = ([], Some r).
Proof. destruct f; reflexivity. Qed.

Lemma calls_of_bind_ret n f R S (x : R) (k : R -> itree zephyrE S) :
  calls_of ans n f (ITree.bind (Ret x) k) = calls_of ans n f (k x).
Proof. destruct f; reflexivity. Qed.

Lemma calls_of_call n f c :
  calls_of ans n (S f) (call c) = ([c], Some (ans n)).
Proof.
  change (calls_of ans n (S f) (call c))
    with (let (cs, r) := calls_of ans (S n) f (Ret (ans n)) in (c :: cs, r)).
  now rewrite calls_of_ret.
Qed.

Lemma calls_of_call_bind n f R c (k : Z -> itree zephyrE R) :
  calls_of ans n (S f) (ITree.bind (call c) k) =
  (c :: fst (calls_of ans (S n) f (k (ans n))),
   snd (calls_of ans (S n) f (k (ans n)))).
Proof.
  change (calls_of ans n (S f) (ITree.bind (call c) k))
    with (let (cs, r) := calls_of ans (S n) f (ITree.bind (Ret (ans n)) k)
          in (c :: cs, r)).
  rewrite calls_of_bind_ret.
  now destruct (calls_of ans (S n) f (k (ans n))).
Qed.

Lemma calls_of_bind_bind f : forall n R S T (p : itree zephyrE R)
    (g : R -> itree zephyrE S) (k : S -> itree zephyrE T),
  calls_of ans n f (ITree.bind (ITree.bind p g) k) =
  calls_of ans n f (ITree.bind p (fun x => ITree.bind (g x) k)).
Proof.
  induction f as [|f IH]; intros n R S T p g k; cbn;
    rewrite !observe_bind;
    destruct (observe p) as [r | p' | X e h]; cbn;
    rewrite ?observe_bind; try reflexivity.
  - apply IH.
  - destruct e. now rewrite IH.
Qed.

Lemma calls_of_vis n f R c (k : Z -> itree zephyrE R) :
  calls_of ans n (S f) (Vis (Call c) k) =
  (c :: fst (calls_of ans (S n) f (k (ans n))),
   snd (calls_of ans (S n) f (k (ans n)))).
Proof. cbn. now destruct (calls_of ans (S n) f (k (ans n))). Qed.

Lemma calls_of_tau n f R (p : itree zephyrE R) :
  calls_of ans n (S f) (Tau p) = calls_of ans n f p.
Proof. reflexivity. Qed.

(** Only what a program shows first matters. *)
Lemma calls_of_observe n f R (p q : itree zephyrE R) :
  observe p = observe q -> calls_of ans n f p = calls_of ans n f q.
Proof. intros H. destruct f; cbn; now rewrite H. Qed.

Lemma calls_of_forever n f R (body : itree zephyrE unit) :
  calls_of ans n f (ITree.forever body : itree zephyrE R) =
  calls_of ans n f (ITree.bind body (fun _ => Tau (ITree.forever body))).
Proof. apply calls_of_observe, unfold_forever_. Qed.

(** Once its first part has returned, a sequence goes on with what
    follows, with at least the fuel that was set aside for it. *)
Lemma calls_of_bind_returns f1 : forall n A B (p : itree zephyrE A)
    (k : A -> itree zephyrE B) cs r f2,
  calls_of ans n f1 p = (cs, Some r) ->
  exists f2', (f2 <= f2')%nat /\
    calls_of ans n (f1 + f2) (ITree.bind p k) =
    (cs ++ fst (calls_of ans (n + List.length cs) f2' (k r)),
     snd (calls_of ans (n + List.length cs) f2' (k r))).
Proof.
  induction f1 as [|f1 IH]; intros n A B p k cs r f2 H.
  - exists f2. split; [lia|]. cbn in H.
    destruct (observe p) as [r0 | p' | X e h] eqn:E; try discriminate.
    injection H as <- <-. cbn [Nat.add List.length app].
    rewrite Nat.add_0_r.
    rewrite (calls_of_observe n f2 _ (ITree.bind p k) (k r0)).
    + now destruct (calls_of ans n f2 (k r0)).
    + now rewrite observe_bind, E.
  - cbn in H. destruct (observe p) as [r0 | p' | X e h] eqn:E.
    + injection H as <- <-. exists (S f1 + f2)%nat. split; [lia|].
      cbn [List.length app]. rewrite Nat.add_0_r.
      rewrite (calls_of_observe n _ _ (ITree.bind p k) (k r0)).
      * now destruct (calls_of ans n (S f1 + f2) (k r0)).
      * now rewrite observe_bind, E.
    + destruct (IH n A B p' k cs r f2 H) as (f2' & Hle & Heq).
      exists f2'. split; [exact Hle|].
      rewrite (calls_of_observe n _ _ (ITree.bind p k) (Tau (ITree.bind p' k)))
        by now rewrite observe_bind, E.
      exact Heq.
    + destruct e.
      destruct (calls_of ans (S n) f1 (h (ans n))) as [cs' r'] eqn:Eh.
      injection H as <- ->.
      destruct (IH _ _ B (h (ans n)) k cs' r f2 Eh) as (f2' & Hle & Heq).
      exists f2'. split; [exact Hle|].
      rewrite (calls_of_observe n _ _ (ITree.bind p k)
                 (Vis (Call c) (fun x => ITree.bind (h x) k)))
        by now rewrite observe_bind, E.
      change (S f1 + f2)%nat with (S (f1 + f2)).
      rewrite calls_of_vis, Heq. cbn [fst snd List.length app].
      now rewrite Nat.add_succ_r.
Qed.

End CallsOf.

Section Run.
Variable P : platform.
Variable t : tid.

Lemma run_ret f R (r : R) w : run P t f (Ret r) w = Some (r, w).
Proof. destruct f; reflexivity. Qed.

Lemma run_bind_ret f R S (x : R) (k : R -> itree zephyrE S) w :
  run P t f (ITree.bind (Ret x) k) w = run P t f (k x) w.
Proof. destruct f; reflexivity. Qed.

Lemma run_call_bind f R c (k : Z -> itree zephyrE R) w :
  run P t (S f) (ITree.bind (call c) k) w =
  match handle P t c w with
  | Some (a, w') => run P t f (k a) w'
  | None => None
  end.
Proof.
  change (run P t (S f) (ITree.bind (call c) k) w)
    with (match handle P t c w with
          | Some (a, w') => run P t f (ITree.bind (Ret a) k) w'
          | None => None
          end).
  destruct (handle P t c w) as [[a w']|]; [apply run_bind_ret | reflexivity].
Qed.

Lemma run_bind_bind f : forall R S T (p : itree zephyrE R)
    (g : R -> itree zephyrE S) (k : S -> itree zephyrE T) w,
  run P t f (ITree.bind (ITree.bind p g) k) w =
  run P t f (ITree.bind p (fun x => ITree.bind (g x) k)) w.
Proof.
  induction f as [|f IH]; intros R S T p g k w; cbn;
    rewrite !observe_bind;
    destruct (observe p) as [r | p' | X e h]; cbn;
    rewrite ?observe_bind; try reflexivity.
  - apply IH.
  - destruct e.
    destruct (handle P t c w) as [[a w']|]; [apply IH | reflexivity].
Qed.

(** More fuel never changes a result. *)
Lemma run_fuel f : forall g R (p : itree zephyrE R) w x,
  run P t f p w = Some x -> (f <= g)%nat -> run P t g p w = Some x.
Proof.
  induction f as [|f IH]; intros g R p w x H Hle.
  - destruct g; cbn in *; destruct (observe p); congruence.
  - destruct g; [lia|]. cbn in *.
    destruct (observe p) as [r | p' | X e h]; [assumption | |].
    + apply IH; [assumption | lia].
    + destruct e. destruct (handle P t c w) as [[a w']|]; [|discriminate].
      apply IH; [assumption | lia].
Qed.

End Run.

(** A thread's calls from its n-th on are its calls from the first on when
    the answers are counted from the n-th. *)
Lemma calls_of_shift f : forall ans n m R (p : itree zephyrE R),
  calls_of ans (n + m) f p = calls_of (fun i => ans (n + i)%nat) m f p.
Proof.
  induction f as [|f IH]; intros ans n m R p; cbn;
    destruct (observe p) as [r | p' | X e h]; try reflexivity.
  - apply IH.
  - destruct e. now rewrite <- IH, Nat.add_succ_r.
Qed.

(** A loop whose body always returns makes, turn after turn, the calls of
    its body. *)
Lemma forever_turns ans R (body : itree zephyrE unit) :
  (forall n, snd (calls_of ans n 32 body) = Some tt) ->
  forall k n f, (33 * k <= f)%nat ->
  exists rest,
    fst (calls_of ans n f (ITree.forever body : itree zephyrE R))
    = turns ans n k body ++ rest.
Proof.
  intros Hret. induction k as [|k IH]; intros n f Hf.
  - eexists. reflexivity.
  - replace f with (32 + (f - 32))%nat by lia.
    rewrite calls_of_forever.
    destruct (calls_of ans n 32 body) as [cs r] eqn:Hb.
    pose proof (Hret n) as Hr. rewrite Hb in Hr. cbn in Hr. subst r.
    destruct (calls_of_bind_returns ans 32 n _ _ body
                (fun _ => Tau (ITree.forever body : itree zephyrE R))
                cs tt (f - 32) Hb)
      as (f' & Hle & Heq).
    apply (f_equal fst) in Heq. cbn [fst] in Heq.
    destruct f' as [|f']; [lia|]. rewrite calls_of_tau in Heq.
    destruct (IH (n + List.length cs)%nat f') as [rest Hrest]; [lia|].
    exists rest. eapply eq_trans; [exact Heq|].
    cbn [turns]. now rewrite Hb, Hrest, app_assoc.
Qed.

#[local] Arguments calls_of : simpl never.
#[local] Arguments run : simpl never.

(** The same equations as rules: what remains to be followed is the
    premise. *)
Lemma calls_of_call_bind_eq ans n f R c (k : Z -> itree zephyrE R) cs r :
  calls_of ans (S n) f (k (ans n)) = (cs, r) ->
  calls_of ans n (S f) (ITree.bind (call c) k) = (c :: cs, r).
Proof. intros H. now rewrite calls_of_call_bind, H. Qed.

Lemma calls_of_bind_bind_eq ans n f R S T (p : itree zephyrE R)
    (g : R -> itree zephyrE S) (k : S -> itree zephyrE T) x :
  calls_of ans n f (ITree.bind p (fun y => ITree.bind (g y) k)) = x ->
  calls_of ans n f (ITree.bind (ITree.bind p g) k) = x.
Proof. intros H. now rewrite calls_of_bind_bind. Qed.

Lemma calls_of_bind_ret_eq ans n f R S (y : R) (k : R -> itree zephyrE S) x :
  calls_of ans n f (k y) = x ->
  calls_of ans n f (ITree.bind (Ret y) k) = x.
Proof. intros H. now rewrite calls_of_bind_ret. Qed.

Lemma run_call_bind_eq P t f R c (k : Z -> itree zephyrE R) w a w' x :
  handle P t c w = Some (a, w') ->
  run P t f (k a) w' = x ->
  run P t (S f) (ITree.bind (call c) k) w = x.
Proof. intros Hh H. now rewrite run_call_bind, Hh. Qed.

Lemma run_bind_bind_eq P t f R S T (p : itree zephyrE R)
    (g : R -> itree zephyrE S) (k : S -> itree zephyrE T) w x :
  run P t f (ITree.bind p (fun y => ITree.bind (g y) k)) w = x ->
  run P t f (ITree.bind (ITree.bind p g) k) w = x.
Proof. intros H. now rewrite run_bind_bind. Qed.

Lemma run_bind_ret_eq P t f R S (y : R) (k : R -> itree zephyrE S) w x :
  run P t f (k y) w = x ->
  run P t f (ITree.bind (Ret y) k) w = x.
Proof. intros H. now rewrite run_bind_ret. Qed.

(** A test the context decides. *)
Ltac decide_test :=
  match goal with
  | H : ?b = true |- context [?b] => rewrite H
  | H : ?b = false |- context [?b] => rewrite H
  end.

(** A test on an answer the context does not decide: both branches. *)
Ltac split_test :=
  match goal with
  | |- calls_of _ _ _ (ITree.bind (if ?b then _ else _) _) = _ =>
      destruct b eqn:?
  | |- calls_of _ _ _ (if ?b then _ else _) = _ => destruct b eqn:?
  end.

(** Follow the calls of a program one by one, for a goal
    [calls_of ans n fuel p = (cs, r)]. *)
Ltac follow :=
  unfold_api;
  repeat first
    [ apply calls_of_ret
    | apply calls_of_call
    | apply calls_of_call_bind_eq
    | apply calls_of_bind_bind_eq
    | apply calls_of_bind_ret_eq
    | progress cbv beta
    | split_test ].

(** The projections and updates of the world, and the tests on names and
    on answers, are computed; the program is left as it is. *)
Ltac compute_world :=
  cbn [sync_counter sync_mutex console trace globals gpio_level
       log set_counter set_mutex write_console set_global set_level
       calls map ev_call app count filter is_printk List.length
       String.eqb Ascii.eqb Bool.eqb negb andb Z.eqb Z.ltb Z.geb Z.compare
       Pos.compare Pos.compare_cont Pos.eqb CompOpp
       port pin dt_flags].

(** The world after a call, for a goal [handle P t c w = Some (a, w')]. *)
Ltac handled :=
  cbn [handle]; compute_world;
  first [ reflexivity | rewrite Nat.eqb_refl; reflexivity ].

(** Follow a program run against the modelled kernel, for a goal
    [run P t fuel p w = x]; the equations in the context decide the tests. *)
Ltac follow_run :=
  unfold_api;
  repeat first
    [ apply run_ret
    | eapply run_call_bind_eq; [handled | compute_world]
    | apply run_bind_bind_eq
    | apply run_bind_ret_eq
    | progress cbv beta iota
    | progress compute_world
    | decide_test ].

Lemma count_app f cs1 cs2 :
  count f (cs1 ++ cs2) = (count f cs1 + count f cs2)%nat.
Proof. unfold count. now rewrite filter_app, length_app. Qed.

Lemma printed_app cs1 cs2 : printed (cs1 ++ cs2) = printed cs1 ++ printed cs2.
Proof.
  induction cs1 as [|c cs1 IH]; [reflexivity|].
  destruct c; cbn; now rewrite ?IH.
Qed.

Lemma wrap_atomic_small x :
  - 2 ^ 31 <= x < 2 ^ 31 -> wrap_atomic x = x.
Proof.
  intros H. unfold wrap_atomic, ATOMIC_BITS.
  change (2 ^ (32 - 1)) with (2 ^ 31). change (2 ^ 32) with (2 * 2 ^ 31).
  rewrite Z.mod_small; lia.
Qed.

(** ** The two copies of sync_log_complete_cycle *)

Lemma sync_log_complete_cycle_same :
  Thread1.sync_log_complete_cycle = SimpleThread.sync_log_complete_cycle.
Proof. reflexivity. Qed.

(** The calls of one sync_log_complete_cycle, seen from the calling thread. *)
Lemma sync_log_complete_cycle_calls ans n f :
  calls_of ans n (S (S (S (S (S (S f))))))
    SimpleThread.sync_log_complete_cycle =
  (AtomicInc :: AtomicGet
     :: (if ans (S n) >=? 3
         then [KMutexLock; AtomicSet 0; Printk LF; KMutexUnlock] else []),
   Some tt).
Proof.
  unfold SimpleThread.sync_log_complete_cycle. follow; reflexivity.
Qed.

(** ** The barrier used sequentially *)

Section Sequential.
Variable P : platform.

(** One call made alone, from a state where the mutex is free and the
    counter holds [c < 3]: it returns, and fires exactly when [c = 2]. *)
Lemma arrive_alone t w (c : nat) :
  sync_mutex w = None -> sync_counter w = Z.of_nat c -> (c < 3)%nat ->
  exists w',
    run P t 6 SimpleThread.sync_log_complete_cycle w = Some (tt, w') /\
    sync_mutex w' = None /\
    sync_counter w' = Z.of_nat (S c mod 3) /\
    calls w' = calls w ++ AtomicInc :: AtomicGet
                 :: (if Nat.eqb c 2
                     then [KMutexLock; AtomicSet 0; Printk LF; KMutexUnlock]
                     else []) /\
    console w' = console w
                 ++ (if Nat.eqb c 2
                        && negb (sink_fails P (count is_printk (calls w)))
                     then [LF] else []).
Proof.
  intros Hm Hc Hlt. destruct w as [c0 m co tr g lv]. cbn in Hm, Hc. subst m c0.
  unfold SimpleThread.sync_log_complete_cycle, calls.
  destruct c as [|[|[|c]]]; [| | |lia]; eexists; (split; [follow_run|]).
  - cbn. rewrite !map_app. cbn. rewrite <- !app_assoc, app_nil_r.
    repeat split.
  - cbn. rewrite !map_app. cbn. rewrite <- !app_assoc, app_nil_r.
    repeat split.
  - cbn. rewrite !map_app. cbn. rewrite <- !app_assoc.
    repeat split.
    unfold count. rewrite !filter_app, !length_app. cbn. rewrite !Nat.add_0_r.
    now destruct (sink_fails P _).
Qed.

Lemma arrive_seq_spec ts : forall w (c : nat),
  sync_mutex w = None -> sync_counter w = Z.of_nat c -> (c < 3)%nat ->
  exists w',
    arrive_seq P SimpleThread.sync_log_complete_cycle ts w = Some w' /\
    barrier_state w' = (Z.of_nat ((c + List.length ts) mod 3), None) /\
    separators w' = (separators w + (c + List.length ts) / 3)%nat /\
    arrivals w' = (arrivals w + List.length ts)%nat /\
    printed (calls w')
    = printed (calls w) ++ repeat LF ((c + List.length ts) / 3).
Proof.
  induction ts as [|t ts IH]; intros w c Hm Hc Hlt.
  - exists w. cbn [arrive_seq List.length].
    rewrite !Nat.add_0_r, Nat.mod_small, Nat.div_small by lia.
    unfold barrier_state. rewrite Hm, Hc, Nat.add_0_r, app_nil_r. auto.
  - destruct (arrive_alone t w c Hm Hc Hlt)
      as (w1 & Hrun & Hm1 & Hc1 & Hcalls & _).
    assert (Hlt1 : (S c mod 3 < 3)%nat) by (apply Nat.mod_upper_bound; lia).
    destruct (IH w1 _ Hm1 Hc1 Hlt1) as (w' & Hseq & Hst & Hsep & Harr & Hpr).
    exists w'. cbn [arrive_seq List.length]. rewrite Hrun.
    split; [exact Hseq|].
    rewrite Hst, Hsep, Harr, Hpr. unfold separators, arrivals.
    rewrite Hcalls, !count_app, printed_app. cbn [List.length].
    destruct c as [|[|[|c]]]; [| | |lia].
    + change (1 mod 3)%nat with 1%nat.
      replace (0 + S (List.length ts))%nat with (1 + List.length ts)%nat by lia.
      cbn -[Nat.div Nat.modulo Nat.add].
      rewrite !Nat.add_0_r, app_nil_r. repeat split. lia.
    + change (2 mod 3)%nat with 2%nat.
      replace (1 + S (List.length ts))%nat with (2 + List.length ts)%nat by lia.
      cbn -[Nat.div Nat.modulo Nat.add].
      rewrite !Nat.add_0_r, app_nil_r. repeat split. lia.
    + change (3 mod 3)%nat with 0%nat.
      replace (2 + S (List.length ts))%nat
        with (1 * 3 + List.length ts)%nat by lia.
      rewrite (Nat.add_comm (1 * 3)), Nat.Div0.mod_add, Nat.div_add by lia.
      cbn -[Nat.div Nat.modulo Nat.add].
      rewrite <- app_assoc. cbn [app].
      change (0 + List.length ts)%nat with (List.length ts).
      replace (List.length ts / 3 + 1)%nat with (S (List.length ts / 3)) by lia.
      repeat split; lia.
Qed.

End Sequential.

(** ** The console holds what the sink let through *)

Lemma delivered_from_app P l1 : forall n l2,
  delivered_from P n (l1 ++ l2)
  = delivered_from P n l1 ++ delivered_from P (n + List.length l1) l2.
Proof.
  induction l1 as [|s l1 IH]; intros n l2; cbn.
  - now rewrite Nat.add_0_r.
  - rewrite IH, <- app_assoc. now replace (S n + List.length l1)%nat
      with (n + S (List.length l1))%nat by lia.
Qed.

Lemma delivered_reliable P l :
  (forall n, sink_fails P n = false) -> delivered P l = l.
Proof.
  intros H. unfold delivered. generalize 0%nat.
  induction l as [|s l IH]; intros n; cbn; [reflexivity|].
  now rewrite H, IH.
Qed.

Lemma delivered_deaf P l :
  (forall n, sink_fails P n = true) -> delivered P l = [].
Proof.
  intros H. unfold delivered. generalize 0%nat.
  induction l as [|s l IH]; intros n; cbn; [reflexivity|].
  now rewrite H, IH.
Qed.

Lemma length_printed cs : List.length (printed cs) = count is_printk cs.
Proof.
  unfold count. induction cs as [|c cs IH]; [reflexivity|].
  destruct c; cbn; now rewrite ?IH.
Qed.

(** Every call is logged, in order. *)
Lemma handle_calls P t c w a w' :
  handle P t c w = Some (a, w') -> calls w' = calls w ++ [c].
Proof.
  unfold calls.
  destruct c; cbn; intros H;
    repeat match type of H with
      | context [match ?x with _ => _ end] => destruct x
      end;
    inversion H; subst; cbn; now rewrite map_app.
Qed.

Lemma handle_console P t c w a w' :
  handle P t c w = Some (a, w') -> console_ok P w -> console_ok P w'.
Proof.
  unfold console_ok. intros H Hok. rewrite (handle_calls _ _ _ _ _ _ H).
  rewrite printed_app. unfold delivered. rewrite delivered_from_app.
  fold (delivered P (printed (calls w))). rewrite <- Hok, length_printed.
  destruct c; cbn in H |- *;
    repeat match type of H with
      | context [match ?x with _ => _ end] => destruct x
      end;
    inversion H; subst; cbn; rewrite ?app_nil_r; reflexivity.
Qed.

Lemma run_console P t f : forall R (p : itree zephyrE R) w r w',
  run P t f p w = Some (r, w') -> console_ok P w -> console_ok P w'.
Proof.
  induction f as [|f IH]; intros R p w r w'; unfold run; fold @run;
    destruct (observe p) as [r0 | p' | X e h]; try discriminate.
  - now intros [= <- <-].
  - now intros [= <- <-].
  - apply IH.
  - destruct e. destruct (handle P t c w) as [[a w1]|] eqn:Hh; [|discriminate].
    intros Hrun Hok. eapply IH; [exact Hrun|]. eapply handle_console; eauto.
Qed.

Lemma arrive_seq_console P arrive ts : forall w w',
  arrive_seq P arrive ts w = Some w' -> console_ok P w -> console_ok P w'.
Proof.
  induction ts as [|t ts IH]; intros w w'; cbn.
  - now intros [= <-].
  - destruct (run P t 6 arrive w) as [[[] w1]|] eqn:Hrun; [|discriminate].
    intros Hseq Hok. eapply IH; [exact Hseq|]. eapply run_console; eauto.
Qed.

Lemma boot_console P : console_ok P boot_world.
Proof. reflexivity. Qed.

(** ** A thread alone in the system *)

(** A run only adds calls to the log. *)
Lemma run_calls_extend P t f : forall R (p : itree zephyrE R) w r w',
  run P t f p w = Some (r, w') -> exists more, calls w' = calls w ++ more.
Proof.
  induction f as [|f IH]; intros R p w r w'; unfold run; fold @run;
    destruct (observe p) as [r0 | p' | X e h]; try discriminate.
  - intros [= <- <-]. exists []. now rewrite app_nil_r.
  - intros [= <- <-]. exists []. now rewrite app_nil_r.
  - apply IH.
  - destruct e. destruct (handle P t c w) as [[a w1]|] eqn:Hh; [|discriminate].
    intros Hrun. destruct (IH _ _ _ _ _ Hrun) as [more Hmore].
    exists (c :: more).
    now rewrite Hmore, (handle_calls _ _ _ _ _ _ Hh), <- app_assoc.
Qed.

(** Discarding the result of a program changes nothing else. *)
Lemma run_then_ret P t f : forall R (p : itree zephyrE R) w r w',
  run P t f p w = Some (r, w') ->
  run P t f (ITree.bind p (fun _ => Ret tt)) w = Some (tt, w').
Proof.
  induction f as [|f IH]; intros R p w r w'; unfold run; fold @run;
    rewrite observe_bind;
    destruct (observe p) as [r0 | p' | X e h]; try discriminate; cbn.
  - now intros [= <- <-].
  - now intros [= <- <-].
  - apply IH.
  - destruct e. destruct (handle P t c w) as [[a w1]|]; [|discriminate].
    apply IH.
Qed.

(** While a program that creates no thread is alone in the system, the
    scheduler can only let it run: at any moment the calls made are the
    first of the calls of its run. *)
Lemma sched_alone P code f : forall (p : thread) w w' schedule cfg,
  run P 0%nat f p w = Some (tt, w') ->
  count is_thread_create (calls w') = count is_thread_create (calls w) ->
  sched P code schedule (Config w [p]) = Some cfg ->
  exists more, calls w' = calls (cfg_world cfg) ++ more.
Proof.
  induction f as [|f IH]; intros p w w' schedule cfg Hrun Hcount Hsched.
  - destruct schedule as [|t rest].
    + injection Hsched as <-. eapply run_calls_extend; exact Hrun.
    + exfalso. revert Hrun Hsched. unfold run. cbn. unfold sched_step. cbn.
      destruct t as [|[|t]]; cbn; try discriminate.
      destruct (observe p) as [[] | p' | X e h]; discriminate.
  - destruct schedule as [|t rest].
    + injection Hsched as <-. eapply run_calls_extend; exact Hrun.
    + revert Hrun Hsched. unfold run; fold @run. cbn. unfold sched_step. cbn.
      destruct t as [|[|t]]; cbn; try discriminate.
      destruct (observe p) as [[] | p' | X e h]; try discriminate.
      * intros Hrun Hsched. eapply IH; eassumption.
      * destruct e.
        destruct (handle P 0%nat c w) as [[a w1]|] eqn:Hh; [|discriminate].
        intros Hrun Hsched.
        destruct (run_calls_extend _ _ _ _ _ _ _ _ Hrun) as [more Hmore].
        pose proof (handle_calls _ _ _ _ _ _ Hh) as Hc.
        rewrite Hmore, Hc, !count_app in Hcount.
        assert (Hn : is_thread_create c = false).
        { destruct c; try reflexivity. cbn in Hcount. lia. }
        eapply (IH _ w1); [exact Hrun | |].
        -- rewrite Hmore, Hc, !count_app. lia.
        -- destruct c; try discriminate Hn; exact Hsched.
Qed.

Lemma barrier_state_inv w c m :
  barrier_state w = (c, m) -> sync_counter w = c /\ sync_mutex w = m.
Proof. unfold barrier_state. now intros [= -> ->]. Qed.

(** ** Two runs, step by step *)

(** Scenario S1 of the spec: seven sequential arrivals write two
    separators and leave the counter at 1. *)
Example seven_arrivals :
  option_map (fun w => (sync_counter w, sync_mutex w, console w))
    (arrive_seq reliable SimpleThread.sync_log_complete_cycle
                (repeat 0%nat 7) boot_world)
  = Some (1, None, [LF; LF]).
Proof. vm_compute. reflexivity. Qed.

(** The first round of the priority demo without preemption: among main's
    banners, the status lines of T1, T2 and MAIN, then one separator. *)
Example calm_first_round :
  option_map (fun cfg => console (cfg_world cfg))
    (sched reliable SimpleThread.code calm_schedule SimpleThread.boot)
  = Some ["[MAIN] Starting Preemptive Thread Demo" +++ LF;
          "[T1] Low-priority thread (P:-1) running..." +++ LF;
          "[MAIN] Thread 1 created (P:-1)" +++ LF;
          "[T2] High-priority thread (P:-2) working..." +++ LF;
          "[MAIN] Thread 2 created (P:-2)" +++ LF;
          "[MAIN] Monitoring system..." +++ LF;
          LF].
Proof. vm_compute. reflexivity. Qed.

(** ** The barrier used sequentially: the properties *)

(** C2. From a fresh barrier (counter 0, mutex free), K calls of
    sync_log_complete_cycle made one after the other, by whichever
    threads, all return, and by then exactly K / 3 separator lines have been
    written, and nothing else; the console holds those of them that the
    sink did not drop. *)
Theorem sequential_arrivals_separators (P : platform) (ts : list tid) :
  exists w,
    arrive_seq P SimpleThread.sync_log_complete_cycle ts boot_world = Some w /\
    arrivals w = List.length ts /\
    separators w = (List.length ts / 3)%nat /\
    printed (calls w) = repeat LF (List.length ts / 3) /\
    console w = delivered P (repeat LF (List.length ts / 3)).
Proof.
  destruct (arrive_seq_spec P ts boot_world 0 eq_refl eq_refl)
    as (w & Hseq & _ & Hsep & Harr & Hpr); [lia|].
  exists w. cbn -[Nat.div Nat.modulo] in Hsep, Harr, Hpr.
  repeat split; try assumption.
  rewrite <- Hpr. eapply arrive_seq_console; [exact Hseq | apply boot_console].
Qed.

(** C3. After every return of sync_log_complete_cycle in a sequential use
    of the barrier (either copy), the counter is at least 0 and below 3. *)
Theorem counter_below_participants (P : platform) (ts : list tid) :
  (exists w,
     arrive_seq P SimpleThread.sync_log_complete_cycle ts boot_world = Some w /\
     0 <= sync_counter w < 3) /\
  (exists w,
     arrive_seq P Thread1.sync_log_complete_cycle ts boot_world = Some w /\
     0 <= sync_counter w < 3).
Proof.
  rewrite sync_log_complete_cycle_same.
  destruct (arrive_seq_spec P ts boot_world 0 eq_refl eq_refl)
    as (w & Hseq & Hst & _); [lia|].
  assert (H : 0 <= sync_counter w < 3).
  { apply barrier_state_inv in Hst as [Hc _]. rewrite Hc.
    assert ((0 + List.length ts) mod 3 < 3)%nat
      by (apply Nat.mod_upper_bound; lia).
    lia. }
  split; exists w; auto.
Qed.

(** C9. Three sequential calls on a fresh barrier write one separator and
    bring the barrier back to its fresh state; one call does not do what
    two do, so the call is not idempotent. *)
Theorem three_arrivals_round_trip (P : platform) (t1 t2 t3 : tid) :
  (exists w,
     arrive_seq P SimpleThread.sync_log_complete_cycle [t1; t2; t3] boot_world
     = Some w /\
     printed (calls w) = [LF] /\
     separators w = 1%nat /\
     barrier_state w = barrier_state boot_world) /\
  (exists w1 w2,
     arrive_seq P SimpleThread.sync_log_complete_cycle [t1] boot_world
     = Some w1 /\
     arrive_seq P SimpleThread.sync_log_complete_cycle [t1; t2] boot_world
     = Some w2 /\
     sync_counter w1 = 1 /\ sync_counter w2 = 2 /\
     barrier_state w1 <> barrier_state w2).
Proof.
  split.
  - destruct (arrive_seq_spec P [t1; t2; t3] boot_world 0 eq_refl eq_refl)
      as (w & Hseq & Hst & Hsep & _ & Hpr); [lia|].
    exists w. auto.
  - destruct (arrive_seq_spec P [t1] boot_world 0 eq_refl eq_refl)
      as (w1 & Hseq1 & Hst1 & _); [lia|].
    destruct (arrive_seq_spec P [t1; t2] boot_world 0 eq_refl eq_refl)
      as (w2 & Hseq2 & Hst2 & _); [lia|].
    exists w1, w2. cbn -[Nat.div Nat.modulo] in Hst1, Hst2.
    repeat split; try assumption.
    + now apply barrier_state_inv in Hst1.
    + now apply barrier_state_inv in Hst2.
    + rewrite Hst1, Hst2. discriminate.
Qed.

(** C6. The counter is reset whether or not the separator reaches the
    console.  With a console that drops every write, six sequential calls
    leave the counter at 0 and the mutex free, after two attempts to write
    a separator, none of which arrived.  Whatever the console drops, the
    calls all return and the barrier's state after K of them is K mod 3 with
    the mutex free: no arrival is counted twice and none is stuck. *)
Theorem reset_despite_failed_write :
  (forall ready conf (t1 t2 t3 t4 t5 t6 : tid),
     exists w,
       arrive_seq (deaf ready conf) Thread1.sync_log_complete_cycle
                  [t1; t2; t3; t4; t5; t6] boot_world = Some w /\
       sync_counter w = 0 /\ sync_mutex w = None /\
       separators w = 2%nat /\ console w = []) /\
  (forall P ts,
     exists w,
       arrive_seq P Thread1.sync_log_complete_cycle ts boot_world = Some w /\
       arrivals w = List.length ts /\
       barrier_state w = (Z.of_nat (List.length ts mod 3), None)).
Proof.
  rewrite sync_log_complete_cycle_same. split.
  - intros ready conf t1 t2 t3 t4 t5 t6.
    destruct (arrive_seq_spec (deaf ready conf) [t1; t2; t3; t4; t5; t6]
                boot_world 0 eq_refl eq_refl)
      as (w & Hseq & Hst & Hsep & _ & Hpr); [lia|].
    exists w. apply barrier_state_inv in Hst as [Hc Hm].
    repeat split; try assumption.
    erewrite (arrive_seq_console _ _ _ _ _ Hseq (boot_console _)).
    now apply delivered_deaf.
  - intros P ts.
    destruct (arrive_seq_spec P ts boot_world 0 eq_refl eq_refl)
      as (w & Hseq & Hst & _ & Harr & _); [lia|].
    exists w. auto.
Qed.

(** ** The calls of one loop turn *)

Section Turns.
Variable ans : nat -> Z.

Lemma thread1_fn_body_calls :
  calls_of ans 0 32 SimpleThread.thread1_fn_body =
  (Printk ("[T1] Low-priority thread (P:-1) running..." +++ LF)
   :: AtomicInc :: AtomicGet :: fire_calls (ans 2%nat) ++ [KSleep 700],
   Some tt).
Proof.
  unfold SimpleThread.thread1_fn_body, SimpleThread.sync_log_complete_cycle,
    fire_calls.
  follow; reflexivity.
Qed.

Lemma thread2_fn_body_calls :
  calls_of ans 0 32 SimpleThread.thread2_fn_body =
  (Printk ("[T2] High-priority thread (P:-2) working..." +++ LF)
   :: AtomicInc :: AtomicGet :: fire_calls (ans 2%nat) ++ [KSleep 1200],
   Some tt).
Proof.
  unfold SimpleThread.thread2_fn_body, SimpleThread.sync_log_complete_cycle,
    fire_calls.
  follow; reflexivity.
Qed.

Lemma main_body_calls :
  calls_of ans 0 32 SimpleThread.main_body =
  (Printk ("[MAIN] Monitoring system..." +++ LF)
   :: AtomicInc :: AtomicGet :: fire_calls (ans 2%nat) ++ [KSleep 2000],
   Some tt).
Proof.
  unfold SimpleThread.main_body, SimpleThread.sync_log_complete_cycle,
    fire_calls.
  follow; reflexivity.
Qed.

Lemma led0_thread_body_calls :
  calls_of ans 0 32 Thread1.led0_thread_body =
  ([Load "led0_dev"; Load "led0_pin";
    GpioPinToggle (ans 0%nat) (ans 1%nat);
    Load "led0_dev"; Load "led0_pin";
    GpioPinGet (ans 3%nat) (ans 4%nat);
    Printk (led_status "T1" "LED0" "500ms" (ans 5%nat));
    AtomicInc; AtomicGet]
   ++ fire_calls (ans 8%nat) ++ [KSleep 500],
   Some tt).
Proof.
  unfold Thread1.led0_thread_body, Thread1.sync_log_complete_cycle,
    fire_calls, led_status.
  follow; destruct (ans 5%nat =? 0); reflexivity.
Qed.

Lemma led1_thread_body_calls :
  calls_of ans 0 32 Thread1.led1_thread_body =
  ([Load "led1_dev"; Load "led1_pin";
    GpioPinToggle (ans 0%nat) (ans 1%nat);
    Load "led1_dev"; Load "led1_pin";
    GpioPinGet (ans 3%nat) (ans 4%nat);
    Printk (led_status "T2" "LED1" "200ms" (ans 5%nat));
    AtomicInc; AtomicGet]
   ++ fire_calls (ans 8%nat) ++ [KSleep 200],
   Some tt).
Proof.
  unfold Thread1.led1_thread_body, Thread1.sync_log_complete_cycle,
    fire_calls, led_status.
  follow; destruct (ans 5%nat =? 0); reflexivity.
Qed.

Lemma led2_thread_body_calls :
  calls_of ans 0 32 Thread1.led2_thread_body =
  ([Load "led2_dev"; Load "led2_pin";
    GpioPinSet (ans 0%nat) (ans 1%nat) 1;
    Printk "[T3] Blink 1: LED2 ON | ";
    KSleep 100;
    Load "led2_dev"; Load "led2_pin";
    GpioPinSet (ans 5%nat) (ans 6%nat) 0;
    Printk ("[T3] Blink 2: LED2 OFF | [T3] sleep 800ms" +++ LF);
    AtomicInc; AtomicGet]
   ++ fire_calls (ans 10%nat) ++ [KSleep 800],
   Some tt).
Proof.
  unfold Thread1.led2_thread_body, Thread1.sync_log_complete_cycle,
    fire_calls.
  follow; reflexivity.
Qed.

End Turns.

(** Each of the six loop bodies returns, wherever in the thread's life the
    turn begins. *)
Lemma worker_bodies_return ans n :
  Forall (fun wk => snd (calls_of ans n 32 (w_body wk)) = Some tt)
         (priority_demo_workers ++ led_demo_workers).
Proof.
  replace n with (n + 0)%nat by lia.
  repeat first [apply Forall_cons | apply Forall_nil];
    rewrite calls_of_shift; cbn [w_body priority_T1 priority_T2 priority_MAIN
                                 led_T1 led_T2 led_T3].
  - now rewrite thread1_fn_body_calls.
  - now rewrite thread2_fn_body_calls.
  - now rewrite main_body_calls.
  - now rewrite led0_thread_body_calls.
  - now rewrite led1_thread_body_calls.
  - now rewrite led2_thread_body_calls.
Qed.

(** main of the priority demo: its start-up, then its own loop turns. *)
Lemma main_repeats_its_turn ans k :
  exists rest,
    fst (calls_of ans 0 (6 + 33 * k) SimpleThread.main)
    = [Printk ("[MAIN] Starting Preemptive Thread Demo" +++ LF);
       KMutexInit;
       KThreadCreate "thread1_fn" (-1);
       Printk ("[MAIN] Thread 1 created (P:-1)" +++ LF);
       KThreadCreate "thread2_fn" (-2);
       Printk ("[MAIN] Thread 2 created (P:-2)" +++ LF)]
      ++ turns ans 6 k SimpleThread.main_body ++ rest.
Proof.
  destruct (forever_turns ans Z SimpleThread.main_body) with (k := k)
    (n := 6%nat) (f := (33 * k)%nat) as [rest Hrest]; [|lia|].
  - intros n. pose proof (worker_bodies_return ans n) as H.
    repeat (apply Forall_cons_iff in H as [? H]); assumption.
  - exists rest. rewrite <- Hrest.
    unfold SimpleThread.main, SimpleThread.THREAD_PRIORITY_1,
      SimpleThread.THREAD_PRIORITY_2.
    unfold_api. cbn [Nat.add].
    now rewrite !calls_of_call_bind.
Qed.

(** ** Following a run with facts at hand *)

(* The world after a call, its fields computed; the texts written are left
   as they stand. *)
Ltac world_only :=
  cbn [sync_counter sync_mutex console trace globals gpio_level
       log set_counter set_mutex write_console set_global set_level
       calls map ev_call app count filter is_printk List.length
       String.eqb Ascii.eqb Bool.eqb port pin dt_flags].

Ltac use_hyps :=
  repeat first
    [ rewrite String.eqb_refl
    | rewrite Z.eqb_refl
    | rewrite Nat.eqb_refl
    | match goal with
      | H : ?c = true |- context [?c] => rewrite H
      | H : ?c = false |- context [?c] => rewrite H
      | H : ?c = None |- context [?c] => rewrite H
      | H : ?c = Some _ |- context [?c] => rewrite H
      end ].

Lemma answer_eq {A B : Type} (x x' : A) (y : B) :
  x = x' -> Some (x, y) = Some (x', y).
Proof. intros ->. reflexivity. Qed.

(* The handler's answer to one call; only the answer is rewritten with the
   hypotheses at hand, the world is left as the handler built it. *)
Ltac answered :=
  cbn [handle]; world_only;
  lazymatch goal with
  | |- Some (_, _) = Some (_, _) =>
      apply answer_eq; use_hyps; cbn [andb negb]; reflexivity
  | |- _ => use_hyps; cbn [andb negb]; reflexivity
  end.

(* A test is settled by a hypothesis about it, or by computing it. *)
Ltac settle b :=
  first
    [ match goal with
      | H : ?c = true |- _ =>
          match b with context [c] => rewrite H end
      | H : ?c = false |- _ =>
          match b with context [c] => rewrite H end
      end
    | let v := eval cbn in b in
      match v with
      | true => change b with true
      | false => change b with false
      end ].

Ltac step_run :=
  lazymatch goal with
  | |- run _ _ _ (Ret _) _ = _ => apply run_ret
  | |- run _ _ _ (ITree.bind (call _) _) _ = _ =>
      eapply run_call_bind_eq; [answered | cbv beta]
  | |- run _ _ _ (ITree.bind (ITree.bind _ _) _) _ = _ =>
      apply run_bind_bind_eq
  | |- run _ _ _ (ITree.bind (Ret _) _) _ = _ =>
      apply run_bind_ret_eq; cbv beta
  | |- run ?P ?t ?f (ITree.bind (if true then ?a else _) ?k) ?w = ?x =>
      change (run P t f (ITree.bind a k) w = x)
  | |- run ?P ?t ?f (ITree.bind (if false then _ else ?a) ?k) ?w = ?x =>
      change (run P t f (ITree.bind a k) w = x)
  | |- run ?P ?t ?f (if true then ?a else _) ?w = ?x =>
      change (run P t f a w = x)
  | |- run ?P ?t ?f (if false then _ else ?a) ?w = ?x =>
      change (run P t f a w = x)
  | |- run _ _ _ (ITree.bind (if ?b then _ else _) _) _ = _ => settle b
  | |- run _ _ _ (if ?b then _ else _) _ = _ => settle b
  end.

Ltac walk := unfold_api; repeat step_run.

Ltac world_fields :=
  cbn [sync_counter sync_mutex console trace globals gpio_level
       log set_counter set_mutex write_console set_global set_level
       port pin dt_flags cfg_world cfg_pool].

(* The calls of a world reached from [w]: those of [w], then the new ones. *)
Ltac trace_calls :=
  unfold calls; world_fields;
  rewrite ?map_app, <- ?app_assoc; cbn [map ev_call app].

(** ** The worker threads, turn after turn *)

Lemma calls_of_at ans n f R (p : itree zephyrE R) :
  calls_of ans n f p = calls_of (fun i => ans (n + i)%nat) 0 f p.
Proof.
  pose proof (calls_of_shift f ans n 0 R p) as H.
  rewrite Nat.add_0_r in H. exact H.
Qed.

Lemma forever_runs_turns (body : itree zephyrE unit) (wk : worker) :
  w_body wk = body ->
  (forall ans n, snd (calls_of ans n 32 body) = Some tt) ->
  runs_turns (WorkerThread unit (ITree.forever body) [] wk).
Proof.
  intros Hb Hret ans k.
  cbn [wt_startup wt_code wt_worker List.length app Nat.add].
  rewrite Hb. apply forever_turns; [apply Hret | lia].
Qed.

Lemma body_returns ans n wk :
  In wk (priority_demo_workers ++ led_demo_workers) ->
  snd (calls_of ans n 32 (w_body wk)) = Some tt.
Proof.
  intros Hin. pose proof (worker_bodies_return ans n) as H.
  rewrite Forall_forall in H. apply H, Hin.
Qed.

(** Each of the six thread functions is its worker at work. *)
Lemma worker_threads_run_turns :
  Forall runs_turns (priority_demo_threads ++ led_demo_threads).
Proof.
  repeat first [apply Forall_cons | apply Forall_nil].
  - apply forever_runs_turns; [reflexivity|].
    intros; apply (body_returns ans n priority_T1); cbn; tauto.
  - apply forever_runs_turns; [reflexivity|].
    intros; apply (body_returns ans n priority_T2); cbn; tauto.
  - intros ans k. destruct (main_repeats_its_turn ans k) as [rest H].
    exists rest. exact H.
  - apply forever_runs_turns; [reflexivity|].
    intros; apply (body_returns ans n led_T1); cbn; tauto.
  - apply forever_runs_turns; [reflexivity|].
    intros; apply (body_returns ans n led_T2); cbn; tauto.
  - apply forever_runs_turns; [reflexivity|].
    intros; apply (body_returns ans n led_T3); cbn; tauto.
Qed.

(* A loop turn that begins at call [n] is followed as one that begins at
   call 0 under the answers from [n] on. *)
Ltac turn_at_cases :=
  intros ans n;
  unfold arrives_once_at, sleeps_after_arrival_at, whole_lines_at,
    burst_turn_at, arrival_at, turn_at;
  cbn [wt_worker thread1_fn_worker thread2_fn_worker main_worker
       led0_thread_worker led1_thread_worker led2_thread_worker
       w_body w_arrive w_period w_logs priority_T1 priority_T2 priority_MAIN
       led_T1 led_T2 led_T3];
  rewrite ?sync_log_complete_cycle_same;
  rewrite ?(calls_of_at ans n 32);
  rewrite ?thread1_fn_body_calls, ?thread2_fn_body_calls, ?main_body_calls,
    ?led0_thread_body_calls, ?led1_thread_body_calls, ?led2_thread_body_calls;
  cbn [fst snd app before_arrival is_atomic_inc List.length];
  rewrite ?(calls_of_shift 6 ans n);
  rewrite ?(sync_log_complete_cycle_calls _ _ 0);
  cbv beta; cbn [fst snd];
  unfold fire_calls, led_status, led2_on_text, led2_off_text;
  rewrite ?Nat.add_0_r.

Ltac each_thread :=
  repeat first [apply Forall_cons | apply Forall_nil];
  (split;
   [ pose proof worker_threads_run_turns as H;
     repeat (apply Forall_cons_iff in H as [? H]); assumption
   | ]).

(** ** The workers' loop turns: the properties *)

(** C8. In both demos every worker thread (thread1_fn, thread2_fn and main
    after its start-up in the priority demo; led0_thread, led1_thread and
    led2_thread in the LED demo) runs its loop body turn after turn, and
    every turn, wherever it begins and whatever the kernel answers, is the
    action, then one whole call of sync_log_complete_cycle, which returns,
    then the sleep for the period.  The action ends with a write and holds
    the worker's log output: one write, and two for the burst worker T3,
    which still arrives once. *)
Theorem workers_arrive_once_per_turn :
  Forall (fun wt => in_every_turn wt arrives_once_at)
         (priority_demo_threads ++ led_demo_threads).
Proof.
  each_thread; turn_at_cases;
    match goal with
    | |- context [?x >=? 3] => destruct (x >=? 3)
    end;
    try match goal with
    | |- context [?x =? 0] => destruct (x =? 0)
    end;
    repeat split; reflexivity.
Qed.

(** C5, as the claim has it, fails on the burst worker: the action of T3
    in the LED demo sleeps 100 ms between its two writes, before it
    arrives. *)
Lemma led2_thread_sleeps_in_action :
  filter is_sleep (before_arrival (turn (fun _ => 0) led_T3)) = [KSleep 100]
  /\ ~ sleeps_only_for_period led_T3.
Proof.
  split; [reflexivity|].
  intros H. destruct (H (fun _ => 0)) as [H0 _]. discriminate H0.
Qed.

(** C5, amended. The worker threads of the priority demo and T1, T2 of the
    LED demo sleep once in every loop turn they make: for their period, as
    the last call of the turn, once the whole call of
    sync_log_complete_cycle has returned; neither the action nor that call
    sleeps.  T3 of the LED demo sleeps twice in every turn: 100 ms inside
    its action, after its first write and before its second, and its
    period of 800 ms once sync_log_complete_cycle has returned. *)
Theorem workers_sleeps_per_turn :
  Forall (fun wt => in_every_turn wt sleeps_after_arrival_at)
         [thread1_fn_worker; thread2_fn_worker; main_worker;
          led0_thread_worker; led1_thread_worker] /\
  in_every_turn led2_thread_worker burst_turn_at.
Proof.
  split; [each_thread | pose proof worker_threads_run_turns as H;
     repeat (apply Forall_cons_iff in H as [? H]); split; [assumption|]];
    turn_at_cases;
    match goal with
    | |- context [?x >=? 3] => destruct (x >=? 3)
    end;
    repeat split; reflexivity.
Qed.

(** C4, as the claim has it, fails on the burst worker: the first write of
    T3's loop turn carries no newline. *)
Lemma led2_thread_writes_partial_line :
  printed (turn (fun _ => 0) led_T3)
  = ["[T3] Blink 1: LED2 ON | ";
     "[T3] Blink 2: LED2 OFF | [T3] sleep 800ms" +++ LF]
  /\ whole_line "[T3] Blink 1: LED2 ON | " = false
  /\ ~ writes_whole_lines led_T3.
Proof.
  split; [reflexivity|]. split; [reflexivity|].
  intros H. specialize (H (fun _ => 0)). discriminate H.
Qed.

(** One loop turn of led2_thread against the kernel, no other thread
    running meanwhile: its two texts are handed to printk one after the
    other. *)
Lemma led2_thread_body_writes (P : platform) (t : tid) (w : world) :
  sync_mutex w = None ->
  exists w',
    run P t 32 Thread1.led2_thread_body w = Some (tt, w') /\
    printed (calls w') =
      printed (calls w)
      ++ led2_on_text :: led2_off_text :: separator_after (sync_counter w).
Proof.
  intros Hm. unfold separator_after.
  destruct (wrap_atomic (sync_counter w + 1) >=? 3) eqn:Hc;
    (eexists; split;
     [unfold Thread1.led2_thread_body, Thread1.sync_log_complete_cycle; walk|]);
    trace_calls; rewrite printed_app; reflexivity.
Qed.

(** C4, amended. Every write of every loop turn of the worker threads, the
    barrier's separator included, passes one whole line, except in
    led2_thread (T3 of the LED demo): in every turn its first write passes
    the beginning of a line without a newline, and its second write, made
    after the sleep of 100 ms, passes the rest of that line.  When T3 makes
    its turn with no other thread writing meanwhile, the two texts are
    handed to printk one after the other, and on a console that drops
    neither they form one whole line; in the schedule [split_schedule],
    where T1 makes its turn during T3's sleep, T1's line lands between
    them. *)
Theorem workers_write_whole_lines_but_T3 (P : platform) (t : tid) (w : world) :
  sync_mutex w = None ->
  console_ok P w ->
  Forall (fun wt => in_every_turn wt whole_lines_at)
         [thread1_fn_worker; thread2_fn_worker; main_worker;
          led0_thread_worker; led1_thread_worker] /\
  in_every_turn led2_thread_worker burst_turn_at /\
  whole_line led2_on_text = false /\
  whole_line led2_off_text = true /\
  whole_line (led2_on_text +++ led2_off_text) = true /\
  (exists w',
     run P t 32 Thread1.led2_thread_body w = Some (tt, w') /\
     printed (calls w') =
       printed (calls w)
       ++ led2_on_text :: led2_off_text :: separator_after (sync_counter w) /\
     console_ok P w') /\
  skipn 7 (console split_world)
  = [led2_on_text; led_status "T1" "LED0" "500ms" 1; led2_off_text].
Proof.
  intros Hm Hok.
  split; [|split; [|split; [|split; [|split; [|split]]]]].
  - each_thread; turn_at_cases;
      match goal with
      | |- context [?x >=? 3] => destruct (x >=? 3)
      end;
      try match goal with
      | |- context [?x =? 0] => destruct (x =? 0)
      end;
      reflexivity.
  - pose proof worker_threads_run_turns as H.
    repeat (apply Forall_cons_iff in H as [? H]). split; [assumption|].
    turn_at_cases;
      match goal with
      | |- context [?x >=? 3] => destruct (x >=? 3)
      end;
      repeat split; reflexivity.
  - reflexivity.
  - reflexivity.
  - reflexivity.
  - destruct (led2_thread_body_writes P t w Hm) as (w' & Hrun & Hpr).
    exists w'. repeat split; [exact Hrun | exact Hpr |].
    eapply run_console; [exact Hrun | exact Hok].
  - vm_compute. reflexivity.
Qed.

Lemma workers_write_whole_lines_but_T3_witness :
  Forall (fun wt => in_every_turn wt whole_lines_at)
         [thread1_fn_worker; thread2_fn_worker; main_worker;
          led0_thread_worker; led1_thread_worker] /\
  in_every_turn led2_thread_worker burst_turn_at /\
  whole_line led2_on_text = false /\
  whole_line led2_off_text = true /\
  whole_line (led2_on_text +++ led2_off_text) = true /\
  (exists w',
     run reliable 3%nat 32 Thread1.led2_thread_body boot_world
       = Some (tt, w') /\
     printed (calls w') =
       printed (calls boot_world)
       ++ led2_on_text :: led2_off_text
          :: separator_after (sync_counter boot_world) /\
     console_ok reliable w') /\
  skipn 7 (console split_world)
  = [led2_on_text; led_status "T1" "LED0" "500ms" 1; led2_off_text].
Proof.
  apply (workers_write_whole_lines_but_T3 reliable 3%nat boot_world);
    reflexivity.
Defined.

(** ** The barrier under preemption: the properties *)

(** C1. The code does not re-check the counter under the lock: nothing is
    read between taking the lock and the reset.  In the schedule
    [race_schedule] of the priority demo, main passes its threshold test
    with the counter at 3, T1 then arrives and fires, and main, once it
    holds the lock, resets a counter that is at 0 and writes a second
    separator: four arrivals, and two separators that follow each other on
    the console, where the function's own description promises a newline
    when all three threads have printed once. *)
Lemma reset_not_rechecked_under_lock :
  calls_of (fun _ => 3) 0 6 SimpleThread.sync_log_complete_cycle
  = ([AtomicInc; AtomicGet; KMutexLock; AtomicSet 0; Printk LF; KMutexUnlock],
     Some tt)
  /\ race_end <> None
  /\ In (Ev 0%nat (AtomicSet 0) 0) (trace race_world)
  /\ ~ resets_rechecked (trace race_world)
  /\ arrivals race_world = 4%nat
  /\ separators race_world = 2%nat
  /\ skipn 7 (console race_world) = [LF; LF].
Proof.
  assert (Hin : In (Ev 0%nat (AtomicSet 0) 0) (trace race_world)).
  { vm_compute. repeat first [left; reflexivity | right]. }
  split; [vm_compute; reflexivity|].
  split; [vm_compute; discriminate|].
  split; [exact Hin|].
  split; [|repeat split; vm_compute; reflexivity].
  intros H. specialize (H _ Hin eq_refl). cbn in H. lia.
Qed.

(** Both copies share this: when the atomic_get that follows the
    increment reads 3 or more, the calls that follow are the lock, the
    reset, the write and the unlock, whatever these calls answer; no read
    of the counter lies between the lock and the reset. *)
Lemma fire_path_resets_unconditionally (ans : nat -> Z) (n : nat) :
  3 <= ans (S n) ->
  calls_of ans n 6 SimpleThread.sync_log_complete_cycle
  = ([AtomicInc; AtomicGet; KMutexLock; AtomicSet 0; Printk LF; KMutexUnlock],
     Some tt)
  /\ calls_of ans n 6 Thread1.sync_log_complete_cycle
     = ([AtomicInc; AtomicGet; KMutexLock; AtomicSet 0; Printk LF;
         KMutexUnlock],
        Some tt).
Proof.
  intros H. rewrite sync_log_complete_cycle_same.
  rewrite (sync_log_complete_cycle_calls ans n 0).
  replace (ans (S n) >=? 3) with true by (symmetry; apply Z.geb_le; lia).
  split; reflexivity.
Qed.

Lemma fire_path_resets_unconditionally_witness :
  calls_of (fun _ => 4) 0 6 SimpleThread.sync_log_complete_cycle
  = ([AtomicInc; AtomicGet; KMutexLock; AtomicSet 0; Printk LF; KMutexUnlock],
     Some tt)
  /\ calls_of (fun _ => 4) 0 6 Thread1.sync_log_complete_cycle
     = ([AtomicInc; AtomicGet; KMutexLock; AtomicSet 0; Printk LF;
         KMutexUnlock],
        Some tt).
Proof.
  apply (fire_path_resets_unconditionally (fun _ => 4) 0). lia.
Defined.


(** ** Initialisation of the LEDs: the properties *)

#[local] Arguments fmt_d : simpl never.

(** The two ways the LED of [s] can fail, and its success. *)
Ltac led_case P s :=
  destruct (device_ready P (port s)) eqn:?;
  [ destruct (configure_ret P (port s) (pin s) _ <? 0) eqn:? | ].

(** C7. When one of the three LEDs fails to initialise, because its port is
    not ready or configuring its pin reports an error, main writes its
    start banner, the [INIT] error line of the first LED that fails and
    the line "[MAIN] LED initialization failed", and returns 0 without
    creating a thread: no worker line and no separator is written.  Nor
    can any be written later: whatever the scheduler does from the start of
    the program, the calls made so far are the first calls of that run of
    main. *)
Theorem main_stops_on_init_failure (P : platform) (G : Z)
    (s0 s1 s2 : gpio_dt_spec) (bad : led) :
  first_failure P G (board_leds s0 s1 s2) = Some bad ->
  exists w,
    run P 0%nat 64 (Thread1.main G s0 s1 s2) boot_world = Some (0, w) /\
    printed (calls w)
    = ["[MAIN] Starting LED thread demo" +++ LF;
       init_error_line P (snd bad);
       "[MAIN] LED initialization failed" +++ LF] /\
    is_init_error (init_error_line P (snd bad)) = true /\
    count is_thread_create (calls w) = 0%nat /\
    separators w = 0%nat /\
    arrivals w = 0%nat /\
    console w = delivered P (printed (calls w)) /\
    forall schedule cfg,
      sched P Thread1.code schedule (Thread1.boot G s0 s1 s2) = Some cfg ->
      (exists more, calls w = calls (cfg_world cfg) ++ more) /\
      separators (cfg_world cfg) = 0%nat /\
      arrivals (cfg_world cfg) = 0%nat.
Proof.
  intros H.
  assert (exists w,
    run P 0%nat 64 (Thread1.main G s0 s1 s2) boot_world = Some (0, w) /\
    printed (calls w)
    = ["[MAIN] Starting LED thread demo" +++ LF;
       init_error_line P (snd bad);
       "[MAIN] LED initialization failed" +++ LF] /\
    is_init_error (init_error_line P (snd bad)) = true /\
    count is_thread_create (calls w) = 0%nat /\
    separators w = 0%nat /\
    arrivals w = 0%nat) as (w & Hrun & Hpr & Herr & Hth & Hsep & Harr).
  { revert H.
    unfold first_failure, board_leds, init_ok, init_error_line,
      configure_flags.
    cbn [find snd]. intros H.
    led_case P s0; [|led_case P s1; [|led_case P s2|] |];
      cbn [negb andb] in H; try discriminate H; injection H as <-; cbn [snd];
      repeat decide_test.
    all: eexists; split; [unfold Thread1.main, Thread1.init_led; follow_run|].
    all: cbn; repeat split; reflexivity. }
  exists w. repeat split; try assumption.
  - eapply run_console; [exact Hrun | apply boot_console].
  - eapply sched_alone;
      [apply (run_then_ret _ _ _ _ _ _ _ _ Hrun) | | eassumption].
    now rewrite Hth.
  - destruct (sched_alone P Thread1.code 64 _ _ w schedule cfg
                (run_then_ret _ _ _ _ _ _ _ _ Hrun)) as [more Hmore];
      [now rewrite Hth | assumption |].
    unfold separators in *. rewrite Hmore, count_app in Hsep. lia.
  - destruct (sched_alone P Thread1.code 64 _ _ w schedule cfg
                (run_then_ret _ _ _ _ _ _ _ _ Hrun)) as [more Hmore];
      [now rewrite Hth | assumption |].
    unfold arrivals in *. rewrite Hmore, count_app in Harr. lia.
Qed.

Lemma main_stops_on_init_failure_witness :
  exists w,
    run led1_broken 0%nat 64
        (Thread1.main sample_output_inactive
           (sample_led 0) (sample_led 1) (sample_led 2))
        boot_world = Some (0, w) /\
    printed (calls w)
    = ["[MAIN] Starting LED thread demo" +++ LF;
       "[INIT] Error configuring pin 1" +++ LF;
       "[MAIN] LED initialization failed" +++ LF] /\
    is_init_error ("[INIT] Error configuring pin 1" +++ LF) = true /\
    count is_thread_create (calls w) = 0%nat /\
    separators w = 0%nat /\
    arrivals w = 0%nat /\
    console w = delivered led1_broken (printed (calls w)) /\
    forall schedule cfg,
      sched led1_broken Thread1.code schedule
            (Thread1.boot sample_output_inactive
               (sample_led 0) (sample_led 1) (sample_led 2)) = Some cfg ->
      (exists more, calls w = calls (cfg_world cfg) ++ more) /\
      separators (cfg_world cfg) = 0%nat /\
      arrivals (cfg_world cfg) = 0%nat.
Proof.
  apply (main_stops_on_init_failure led1_broken sample_output_inactive
           (sample_led 0) (sample_led 1) (sample_led 2)
           ("led1_dev", "led1_pin", sample_led 1)).
  reflexivity.
Defined.

(** C10. main initialises led0, led1, led2 in this order and stops at the
    first that fails: the driver operations (configure, set) and the stores
    to the LED variables that main performs are those of the LEDs tried,
    so none for an LED after the one that failed.  And when init_led
    finds the port not ready it returns -1 having called nothing but
    device_is_ready and printk: the variables behind [dev] and [pin], like
    every other global, hold what they held. *)
Theorem init_short_circuits (P : platform) (G : Z) (s0 s1 s2 : gpio_dt_spec)
    (bad : led) :
  first_failure P G (board_leds s0 s1 s2) = Some bad ->
  (exists w,
     run P 0%nat 64 (Thread1.main G s0 s1 s2) boot_world = Some (0, w) /\
     filter is_gpio_write (calls w)
     = flat_map (fun l => init_gpio_writes P G (snd l))
                (tried P G (board_leds s0 s1 s2)) /\
     filter is_store (calls w)
     = flat_map (fun l => init_stores P (fst (fst l)) (snd (fst l)) (snd l))
                (tried P G (board_leds s0 s1 s2))) /\
  (init_ok P G s0 = false ->
   tried P G (board_leds s0 s1 s2) = [("led0_dev", "led0_pin", s0)]) /\
  (init_ok P G s0 = true -> init_ok P G s1 = false ->
   tried P G (board_leds s0 s1 s2)
   = [("led0_dev", "led0_pin", s0); ("led1_dev", "led1_pin", s1)]) /\
  (forall t w dev pin s,
     device_ready P (port s) = false ->
     exists w',
       run P t 8 (Thread1.init_led G dev pin s) w = Some (-1, w') /\
       calls w' = calls w ++ [DeviceIsReady (port s);
                              Printk ("[INIT] Error: LED device not ready"
                                      +++ LF)] /\
       forall x, globals w' x = globals w x).
Proof.
  intros H. split; [|split; [|split]].
  - revert H.
    unfold first_failure, board_leds, tried, init_gpio_writes, init_stores,
      init_ok, configure_flags.
    cbn [find flat_map fst snd]. intros H.
    led_case P s0; [|led_case P s1; [|led_case P s2|] |];
      cbn [negb andb] in H; try discriminate H; clear H;
      repeat (decide_test; cbn [negb andb flat_map fst snd app]).
    all: eexists; split;
      [unfold Thread1.main, Thread1.init_led; follow_run|].
    all: cbn; repeat (decide_test; cbn); split; reflexivity.
  - intros H0. cbn. now rewrite H0.
  - intros H0 H1. cbn. now rewrite H0, H1.
  - intros t w dev pin s Hr. eexists. split.
    + unfold Thread1.init_led. follow_run.
    + split; [|reflexivity]. unfold calls. cbn. rewrite !map_app.
      now rewrite <- app_assoc.
Qed.

Lemma init_short_circuits_witness :
  first_failure port2_unready sample_output_inactive
    (board_leds (sample_led 0) (sample_led 1) (sample_led 2))
  = Some ("led1_dev", "led1_pin", sample_led 1) /\
  exists w,
    run port2_unready 0%nat 64
        (Thread1.main sample_output_inactive
           (sample_led 0) (sample_led 1) (sample_led 2))
        boot_world = Some (0, w) /\
    filter is_gpio_write (calls w)
    = [GpioPinConfigure 1 0 sample_output_inactive; GpioPinSet 1 0 0] /\
    filter is_store (calls w) = [Store "led0_dev" 1; Store "led0_pin" 0].
Proof.
  split; [reflexivity|].
  exact (proj1 (init_short_circuits port2_unready sample_output_inactive
                  (sample_led 0) (sample_led 1) (sample_led 2)
                  ("led1_dev", "led1_pin", sample_led 1) eq_refl)).
Defined.

(** ** The barrier from any state *)

Lemma below_threshold c :
  - 2 ^ 31 <= c < 2 -> (wrap_atomic (c + 1) >=? 3) = false.
Proof.
  intros H. rewrite wrap_atomic_small by lia.
  destruct (Z.geb_spec (c + 1) 3); [lia | reflexivity].
Qed.

Lemma at_threshold c :
  2 <= c < 2 ^ 31 - 1 -> (wrap_atomic (c + 1) >=? 3) = true.
Proof.
  intros H. rewrite wrap_atomic_small by lia.
  destruct (Z.geb_spec (c + 1) 3); [reflexivity | lia].
Qed.

(** X1. Below the threshold sync_log_complete_cycle takes no lock: whatever
    the state of the mutex, also when another thread holds it, the call
    returns after the increment and the read, and writes nothing. *)
Theorem arrive_below_threshold_takes_no_lock (P : platform) (t : tid)
  (w : world) :
  - 2 ^ 31 <= sync_counter w < 2 ->
  exists w',
    run P t 6 SimpleThread.sync_log_complete_cycle w = Some (tt, w') /\
    calls w' = calls w ++ [AtomicInc; AtomicGet] /\
    sync_counter w' = sync_counter w + 1 /\
    sync_mutex w' = sync_mutex w /\
    console w' = console w.
Proof.
  intros Hc. pose proof (below_threshold _ Hc) as Hb.
  eexists. split; [unfold SimpleThread.sync_log_complete_cycle; walk|].
  split; [trace_calls; reflexivity|].
  world_fields. rewrite wrap_atomic_small by lia. repeat split.
Qed.

Lemma arrive_below_threshold_takes_no_lock_witness :
  exists w',
    run reliable 2%nat 6 SimpleThread.sync_log_complete_cycle
        (set_mutex (Some (1%nat, 1%nat)) boot_world) = Some (tt, w') /\
    calls w' = calls (set_mutex (Some (1%nat, 1%nat)) boot_world)
               ++ [AtomicInc; AtomicGet] /\
    sync_counter w' =
      sync_counter (set_mutex (Some (1%nat, 1%nat)) boot_world) + 1 /\
    sync_mutex w' = sync_mutex (set_mutex (Some (1%nat, 1%nat)) boot_world) /\
    console w' = console (set_mutex (Some (1%nat, 1%nat)) boot_world).
Proof.
  apply (arrive_below_threshold_takes_no_lock reliable 2%nat
           (set_mutex (Some (1%nat, 1%nat)) boot_world)).
  cbn. lia.
Defined.

(** X2. At or above the threshold the counter is reset to zero, not lowered by
    three: from any count of 2 or more, with the mutex free, one call
    leaves the counter at 0 and the mutex free, and hands one separator
    to printk. *)
Theorem arrive_at_threshold_resets_to_zero (P : platform) (t : tid)
  (w : world) :
  2 <= sync_counter w < 2 ^ 31 - 1 ->
  sync_mutex w = None ->
  exists w',
    run P t 6 SimpleThread.sync_log_complete_cycle w = Some (tt, w') /\
    calls w' = calls w ++ [AtomicInc; AtomicGet; KMutexLock; AtomicSet 0;
                           Printk LF; KMutexUnlock] /\
    sync_counter w' = 0 /\
    sync_mutex w' = None.
Proof.
  intros Hc Hm. pose proof (at_threshold _ Hc) as Hb.
  eexists. split; [unfold SimpleThread.sync_log_complete_cycle; walk|].
  split; [trace_calls; reflexivity|].
  world_fields. repeat split.
Qed.

Lemma arrive_at_threshold_resets_to_zero_witness :
  exists w',
    run reliable 0%nat 6 SimpleThread.sync_log_complete_cycle
        (set_counter 7 boot_world) = Some (tt, w') /\
    calls w' = calls (set_counter 7 boot_world)
               ++ [AtomicInc; AtomicGet; KMutexLock; AtomicSet 0;
                   Printk LF; KMutexUnlock] /\
    sync_counter w' = 0 /\
    sync_mutex w' = None.
Proof.
  apply (arrive_at_threshold_resets_to_zero reliable 0%nat
           (set_counter 7 boot_world)).
  - cbn. lia.
  - reflexivity.
Defined.

(** *** Waiting for the lock *)

Lemma sched_step_call (P : platform) (code : string -> thread) (t : tid)
  (w w' : world) (pool : list thread) (p : thread) (c : zephyr_call)
  (k : Z -> thread) (a : Z) :
  nth_error pool t = Some p ->
  observe p = observe (ITree.bind (call c) k) ->
  handle P t c w = Some (a, w') ->
  sched_step P code t (Config w pool) =
    Some (Config w' (spawn code c (set_nth t (ITree.bind (Ret a) k) pool))).
Proof.
  intros Hp Ho Hh. unfold sched_step. cbn [cfg_pool cfg_world].
  rewrite Hp, Ho. unfold call. rewrite observe_bind. cbn. rewrite Hh.
  reflexivity.
Qed.


Lemma observe_bind_ret {A B : Type} (a : A) (k : A -> itree zephyrE B) :
  observe (ITree.bind (Ret a) k) = observe (k a).
Proof. reflexivity. Qed.

Ltac next_call :=
  first
    [ reflexivity
    | etransitivity; [apply observe_bind_ret|];
      cbv beta; world_only; use_hyps; reflexivity ].

Ltac sched_call :=
  erewrite sched_step_call;
  [ cbn [spawn set_nth] | reflexivity | next_call | answered ].



(** ** init_led against the kernel *)

Section InitLed.
Variable P : platform.
Variable G : Z.
Variable t : tid.

(** X4. When configuring the pin reports an error, init_led hands the
    driver's code back unchanged and writes the error line with the pin
    number; it has by then overwritten the two globals it was given, and
    it has not touched the level of any pin. *)
Theorem init_led_configure_error (w : world) (dev pin : string)
  (s : gpio_dt_spec) :
  dev <> pin ->
  device_ready P (port s) = true ->
  configure_ret P (port s) (Zephyr.pin s) (configure_flags G s) < 0 ->
  exists w',
    run P t 16 (Thread1.init_led G dev pin s) w =
      Some (configure_ret P (port s) (Zephyr.pin s) (configure_flags G s),
            w') /\
    calls w' = calls w ++
      [DeviceIsReady (port s); Store dev (port s); Store pin (Zephyr.pin s);
       Load dev; Load pin;
       GpioPinConfigure (port s) (Zephyr.pin s) (configure_flags G s);
       Load pin;
       Printk ("[INIT] Error configuring pin " +++ fmt_d (Zephyr.pin s)
               +++ LF)] /\
    globals w' dev = port s /\
    globals w' pin = Zephyr.pin s /\
    (forall d p, gpio_level w' d p = gpio_level w d p).
Proof.
  unfold configure_flags. intros Hne Hready Hconf.
  apply Z.ltb_lt in Hconf.
  assert (Hdp : String.eqb dev pin = false)
    by (apply String.eqb_neq; exact Hne).
  eexists. split; [unfold Thread1.init_led; walk|].
  split; [trace_calls; reflexivity|].
  world_fields. rewrite !String.eqb_refl, Hdp. repeat split.
Qed.

(** X5. When the port is ready and configuring the pin reports no error,
    init_led returns 0, also when the driver answered a positive value;
    the two globals hold the port and the pin of the devicetree entry, the
    LED is off, every other pin is as it was and nothing was written. *)
Theorem init_led_success (w : world) (dev pin : string) (s : gpio_dt_spec) :
  dev <> pin ->
  init_ok P G s = true ->
  exists w',
    run P t 16 (Thread1.init_led G dev pin s) w = Some (0, w') /\
    calls w' = calls w ++ init_led_calls G dev pin s /\
    globals w' dev = port s /\
    globals w' pin = Zephyr.pin s /\
    (forall x, x <> dev -> x <> pin -> globals w' x = globals w x) /\
    (forall d p,
       gpio_level w' d p =
         if (d =? port s) && (p =? Zephyr.pin s) then false
         else gpio_level w d p) /\
    console w' = console w.
Proof.
  unfold init_ok, init_led_calls, configure_flags. intros Hne Hok.
  apply andb_prop in Hok as [Hready Hconf]. apply negb_true_iff in Hconf.
  assert (Hdp : String.eqb dev pin = false)
    by (apply String.eqb_neq; exact Hne).
  eexists. split; [unfold Thread1.init_led; walk|].
  split; [trace_calls; reflexivity|].
  world_fields. rewrite !String.eqb_refl, Hdp.
  repeat split.
  intros x Hd Hp. apply String.eqb_neq in Hd, Hp. rewrite Hd, Hp. reflexivity.
Qed.

(** X6. init_led always returns, and never a positive value: its result is
    negative exactly when the LED did not initialise, and exactly then it
    has written one line. *)
Theorem init_led_result_sign (w : world) (dev pin : string) (s : gpio_dt_spec) :
  dev <> pin ->
  exists r w',
    run P t 16 (Thread1.init_led G dev pin s) w = Some (r, w') /\
    r <= 0 /\
    (r <? 0) = negb (init_ok P G s) /\
    count is_printk (calls w') =
      (count is_printk (calls w) + if init_ok P G s then 0 else 1)%nat.
Proof.
  intros Hne.
  assert (Hdp : String.eqb dev pin = false)
    by (apply String.eqb_neq; exact Hne).
  unfold init_ok, configure_flags.
  destruct (device_ready P (port s)) eqn:Hready;
    [ destruct (configure_ret P (port s) (Zephyr.pin s)
                  (Z.lor G (dt_flags s)) <? 0) eqn:Hconf |].
  - do 2 eexists. split; [unfold Thread1.init_led; walk|].
    repeat split; [apply Z.ltb_lt in Hconf; lia | exact Hconf |].
    trace_calls. rewrite count_app. reflexivity.
  - do 2 eexists. split; [unfold Thread1.init_led; walk|].
    repeat split; [lia|].
    trace_calls. rewrite count_app. reflexivity.
  - do 2 eexists. split; [unfold Thread1.init_led; walk|].
    repeat split; [lia|].
    trace_calls. rewrite count_app. reflexivity.
Qed.
End InitLed.

Lemma init_led_configure_error_witness :
  exists w',
    run led1_broken 0%nat 16
        (Thread1.init_led sample_output_inactive "led1_dev" "led1_pin"
           (sample_led 1)) boot_world =
      Some (configure_ret led1_broken (port (sample_led 1)) (pin (sample_led 1))
              (configure_flags sample_output_inactive (sample_led 1)), w') /\
    calls w' = calls boot_world ++
      [DeviceIsReady (port (sample_led 1));
       Store "led1_dev" (port (sample_led 1));
       Store "led1_pin" (pin (sample_led 1));
       Load "led1_dev"; Load "led1_pin";
       GpioPinConfigure (port (sample_led 1)) (pin (sample_led 1))
         (configure_flags sample_output_inactive (sample_led 1));
       Load "led1_pin";
       Printk ("[INIT] Error configuring pin " +++ fmt_d (pin (sample_led 1))
               +++ LF)] /\
    globals w' "led1_dev" = port (sample_led 1) /\
    globals w' "led1_pin" = pin (sample_led 1) /\
    (forall d p, gpio_level w' d p = gpio_level boot_world d p).
Proof.
  apply (init_led_configure_error led1_broken sample_output_inactive 0%nat
           boot_world "led1_dev" "led1_pin" (sample_led 1)).
  - discriminate.
  - reflexivity.
  - reflexivity.
Defined.

Lemma init_led_success_witness :
  exists w',
    run reliable 0%nat 16
        (Thread1.init_led sample_output_inactive "led0_dev" "led0_pin"
           (sample_led 0)) boot_world = Some (0, w') /\
    calls w' = calls boot_world
               ++ init_led_calls sample_output_inactive "led0_dev" "led0_pin"
                    (sample_led 0) /\
    globals w' "led0_dev" = port (sample_led 0) /\
    globals w' "led0_pin" = pin (sample_led 0) /\
    (forall x, x <> "led0_dev" -> x <> "led0_pin" ->
       globals w' x = globals boot_world x) /\
    (forall d p,
       gpio_level w' d p =
         if (d =? port (sample_led 0)) && (p =? pin (sample_led 0)) then false
         else gpio_level boot_world d p) /\
    console w' = console boot_world.
Proof.
  apply (init_led_success reliable sample_output_inactive 0%nat
           boot_world "led0_dev" "led0_pin" (sample_led 0)).
  - discriminate.
  - reflexivity.
Defined.

Lemma init_led_result_sign_witness :
  exists r w',
    run port2_unready 0%nat 16
        (Thread1.init_led sample_output_inactive "led1_dev" "led1_pin"
           (sample_led 1)) boot_world = Some (r, w') /\
    r <= 0 /\
    (r <? 0)
    = negb (init_ok port2_unready sample_output_inactive (sample_led 1)) /\
    count is_printk (calls w') =
      (count is_printk (calls boot_world)
       + if init_ok port2_unready sample_output_inactive (sample_led 1)
         then 0 else 1)%nat.
Proof.
  apply (init_led_result_sign port2_unready sample_output_inactive 0%nat
           boot_world "led1_dev" "led1_pin" (sample_led 1)).
  discriminate.
Defined.

(** ** The LED demo against the kernel *)

Section LedDemo.
Variable P : platform.

Lemma led_main_run (G : Z) (s0 s1 s2 : gpio_dt_spec) :
  init_ok P G s0 = true -> init_ok P G s1 = true -> init_ok P G s2 = true ->
  exists w,
    run P 0%nat 64 (Thread1.main G s0 s1 s2) boot_world = Some (0, w) /\
    calls w =
      Printk ("[MAIN] Starting LED thread demo" +++ LF)
      :: init_led_calls G "led0_dev" "led0_pin" s0
      ++ init_led_calls G "led1_dev" "led1_pin" s1
      ++ init_led_calls G "led2_dev" "led2_pin" s2
      ++ [KMutexInit;
          Load "led0_pin";
          Printk ("[LED0] Initialized on pin " +++ fmt_d (pin s0) +++ LF);
          Load "led1_pin";
          Printk ("[LED1] Initialized on pin " +++ fmt_d (pin s1) +++ LF);
          Load "led2_pin";
          Printk ("[LED2] Initialized on pin " +++ fmt_d (pin s2) +++ LF
                  +++ LF);
          Printk ("[T1] LED0 thread started (500ms toggle)" +++ LF);
          KThreadCreate "led0_thread" 5;
          Printk ("[T2] LED1 thread started (200ms toggle)" +++ LF);
          KThreadCreate "led1_thread" 5;
          Printk ("[T3] LED2 thread started (burst 2x then 800ms rest)"
                  +++ LF +++ LF);
          KThreadCreate "led2_thread" 5] /\
    (globals w "led0_dev" = port s0 /\ globals w "led0_pin" = pin s0 /\
     globals w "led1_dev" = port s1 /\ globals w "led1_pin" = pin s1 /\
     globals w "led2_dev" = port s2 /\ globals w "led2_pin" = pin s2) /\
    (forall d p, gpio_level w d p = false) /\
    sync_mutex w = None /\
    sync_counter w = 0.
Proof.
  unfold init_ok, configure_flags. intros H0 H1 H2.
  apply andb_prop in H0 as [R0 C0], H1 as [R1 C1], H2 as [R2 C2].
  apply negb_true_iff in C0, C1, C2.
  eexists. split; [unfold Thread1.main, Thread1.init_led; walk|].
  split; [trace_calls; reflexivity|].
  world_fields. cbn [String.eqb Ascii.eqb Bool.eqb].
  repeat split.
  intros d p.
  repeat match goal with |- context [if ?b then _ else _] => destruct b end;
    reflexivity.
Qed.

(** X7. When the three LEDs initialise, main of the LED demo returns 0 having
    written its seven lines, initialised the mutex before it created the
    first thread, created led0_thread, led1_thread and led2_thread in this
    order with priority 5, and configured and switched off each LED in
    turn; the globals name the three LEDs, every pin is off, the counter
    is 0 and the mutex free. *)
Theorem main_starts_workers (G : Z) (s0 s1 s2 : gpio_dt_spec) :
  init_ok P G s0 = true -> init_ok P G s1 = true -> init_ok P G s2 = true ->
  exists w,
    run P 0%nat 64 (Thread1.main G s0 s1 s2) boot_world = Some (0, w) /\
    printed (calls w) =
      ["[MAIN] Starting LED thread demo" +++ LF;
       "[LED0] Initialized on pin " +++ fmt_d (pin s0) +++ LF;
       "[LED1] Initialized on pin " +++ fmt_d (pin s1) +++ LF;
       "[LED2] Initialized on pin " +++ fmt_d (pin s2) +++ LF +++ LF;
       "[T1] LED0 thread started (500ms toggle)" +++ LF;
       "[T2] LED1 thread started (200ms toggle)" +++ LF;
       "[T3] LED2 thread started (burst 2x then 800ms rest)" +++ LF +++ LF] /\
    filter (fun c => is_mutex_init c || is_thread_create c) (calls w) =
      [KMutexInit; KThreadCreate "led0_thread" 5;
       KThreadCreate "led1_thread" 5; KThreadCreate "led2_thread" 5] /\
    filter is_gpio_write (calls w) =
      [GpioPinConfigure (port s0) (pin s0) (configure_flags G s0);
       GpioPinSet (port s0) (pin s0) 0;
       GpioPinConfigure (port s1) (pin s1) (configure_flags G s1);
       GpioPinSet (port s1) (pin s1) 0;
       GpioPinConfigure (port s2) (pin s2) (configure_flags G s2);
       GpioPinSet (port s2) (pin s2) 0] /\
    (globals w "led0_dev" = port s0 /\ globals w "led0_pin" = pin s0 /\
     globals w "led1_dev" = port s1 /\ globals w "led1_pin" = pin s1 /\
     globals w "led2_dev" = port s2 /\ globals w "led2_pin" = pin s2) /\
    (forall d p, gpio_level w d p = false) /\
    arrivals w = 0%nat /\
    sync_mutex w = None /\
    sync_counter w = 0.
Proof.
  intros H0 H1 H2.
  destruct (led_main_run G s0 s1 s2 H0 H1 H2)
    as (w & Hrun & Hcalls & Hglob & Hlev & Hm & Hc).
  exists w. unfold arrivals. rewrite Hcalls.
  repeat split; try tauto; assumption.
Qed.

Variable t : tid.

Ltac toggle_turn body w dev pin :=
  intros Hm;
  unfold toggles_and_reports, counter_after, separator_after, is_led;
  destruct (wrap_atomic (sync_counter w + 1) >=? 3) eqn:Hc;
  destruct (gpio_level w (globals w dev) (globals w pin)) eqn:Hl;
  (eexists; split; [unfold body, Thread1.sync_log_complete_cycle; walk|]);
  (split; [trace_calls; rewrite printed_app; reflexivity|]);
  world_fields; repeat split;
  first [ assumption | intros; rewrite ?Hl; reflexivity ].

Lemma led0_turn (w : world) :
  sync_mutex w = None ->
  toggles_and_reports P t w Thread1.led0_thread_body
    "led0_dev" "led0_pin" "T1" "LED0" "500ms".
Proof. toggle_turn Thread1.led0_thread_body w "led0_dev" "led0_pin". Qed.

Lemma led1_turn (w : world) :
  sync_mutex w = None ->
  toggles_and_reports P t w Thread1.led1_thread_body
    "led1_dev" "led1_pin" "T2" "LED1" "200ms".
Proof. toggle_turn Thread1.led1_thread_body w "led1_dev" "led1_pin". Qed.

Lemma two_turns (w : world) (body : itree zephyrE unit)
  (dev pin label led period : string) :
  toggles_and_reports P t w body dev pin label led period ->
  (forall w1, sync_mutex w1 = None ->
     toggles_and_reports P t w1 body dev pin label led period) ->
  restores_after_two_turns P t w body dev pin label led period.
Proof.
  intros (w1 & Hr1 & Hp1 & Hl1 & Hg1 & Hc1 & Hm1) Hnext.
  destruct (Hnext w1 Hm1) as (w2 & Hr2 & Hp2 & Hl2 & Hg2 & Hc2 & Hm2).
  unfold restores_after_two_turns. exists w1, w2.
  assert (Hown : is_led w dev pin (globals w dev) (globals w pin) = true)
    by (unfold is_led; rewrite !Z.eqb_refl; reflexivity).
  assert (Hsame : forall d p, is_led w1 dev pin d p = is_led w dev pin d p)
    by (intros; unfold is_led; rewrite !Hg1; reflexivity).
  repeat split; try assumption.
  - rewrite Hp2, Hp1, Hc1, !Hg1, Hl1, Hown, negb_involutive.
    rewrite <- app_assoc. reflexivity.
  - intros d p. rewrite Hl2, Hsame, !Hg1, !Hl1, Hown, negb_involutive.
    destruct (is_led w dev pin d p) eqn:Hdp; [|reflexivity].
    unfold is_led in Hdp. apply andb_prop in Hdp as [Hd Hp].
    apply Z.eqb_eq in Hd, Hp. subst. reflexivity.
  - intros x. rewrite Hg2. apply Hg1.
Qed.

(** X8. One loop turn of led0_thread or led1_thread, the mutex being free:
    the turn returns, inverts the pin its two globals name and no other,
    writes the status line of the level the pin now has (ON after OFF, OFF
    after ON), then the separator if its arrival completes a round, and
    leaves the globals as they were and the mutex free. *)
Theorem led_toggle_turn_inverts_and_reports (w : world) :
  sync_mutex w = None ->
  toggles_and_reports P t w Thread1.led0_thread_body
    "led0_dev" "led0_pin" "T1" "LED0" "500ms" /\
  toggles_and_reports P t w Thread1.led1_thread_body
    "led1_dev" "led1_pin" "T2" "LED1" "200ms".
Proof. intros Hm. split; [exact (led0_turn w Hm) | exact (led1_turn w Hm)]. Qed.

(** X9. Two loop turns in a row of led0_thread or led1_thread bring every pin
    back to the level it had, and their two status lines report opposite
    levels. *)
Theorem led_toggle_twice_restores (w : world) :
  sync_mutex w = None ->
  restores_after_two_turns P t w Thread1.led0_thread_body
    "led0_dev" "led0_pin" "T1" "LED0" "500ms" /\
  restores_after_two_turns P t w Thread1.led1_thread_body
    "led1_dev" "led1_pin" "T2" "LED1" "200ms".
Proof.
  intros Hm. split.
  - apply two_turns; [exact (led0_turn w Hm) | exact led0_turn].
  - apply two_turns; [exact (led1_turn w Hm) | exact led1_turn].
Qed.

Lemma led2_turn (w : world) :
  sync_mutex w = None ->
  exists w',
    run P t 32 Thread1.led2_thread_body w = Some (tt, w') /\
    printed (calls w') =
      printed (calls w)
      ++ led2_on_text :: led2_off_text :: separator_after (sync_counter w) /\
    (forall d p,
       gpio_level w' d p =
         if is_led w "led2_dev" "led2_pin" d p then false
         else gpio_level w d p) /\
    (forall x, globals w' x = globals w x) /\
    sync_counter w' = counter_after (sync_counter w) /\
    sync_mutex w' = None.
Proof.
  intros Hm. unfold counter_after, separator_after, is_led.
  destruct (wrap_atomic (sync_counter w + 1) >=? 3) eqn:Hc;
    (eexists; split;
     [unfold Thread1.led2_thread_body, Thread1.sync_log_complete_cycle; walk|]);
    (split; [trace_calls; rewrite printed_app; reflexivity|]);
    world_fields; repeat split; try assumption;
    intros d p;
    destruct ((d =? globals w "led2_dev") && (p =? globals w "led2_pin"));
    reflexivity.
Qed.
End LedDemo.

(** X10. One loop turn of led2_thread, the mutex being free: the thread
    switches the LED its globals name on before it sleeps its 100 ms, so
    the LED is on during that sleep; the whole turn returns with that LED
    off, every other pin and the globals as they were, and the mutex
    free. *)
Theorem led2_turn_pulses (P : platform) (w : world) :
  sync_mutex w = None ->
  (exists cfg,
     sched P Thread1.code (repeat 0%nat 5)
       (Config w [Thread1.led2_thread_body]) = Some cfg /\
     calls (cfg_world cfg) =
       calls w ++ [Load "led2_dev"; Load "led2_pin";
                   GpioPinSet (globals w "led2_dev") (globals w "led2_pin") 1;
                   Printk led2_on_text; KSleep 100] /\
     gpio_level (cfg_world cfg) (globals w "led2_dev") (globals w "led2_pin")
     = true) /\
  (exists w',
     run P 0%nat 32 Thread1.led2_thread_body w = Some (tt, w') /\
     (forall d p,
        gpio_level w' d p =
          if is_led w "led2_dev" "led2_pin" d p then false
          else gpio_level w d p) /\
     (forall x, globals w' x = globals w x) /\
     sync_mutex w' = None).
Proof.
  intros Hm. split.
  - eexists. split.
    + unfold Thread1.led2_thread_body. unfold_api. cbn [repeat sched].
      do 5 sched_call. reflexivity.
    + split; [trace_calls; reflexivity|].
      world_fields. rewrite !Z.eqb_refl. reflexivity.
  - destruct (led2_turn P 0%nat w Hm) as (w' & Hrun & _ & Hl & Hg & _ & Hm').
    exists w'. auto.
Qed.

Lemma led2_turn_pulses_witness :
  (exists cfg,
     sched reliable Thread1.code (repeat 0%nat 5)
       (Config boot_world [Thread1.led2_thread_body]) = Some cfg /\
     calls (cfg_world cfg) =
       calls boot_world
       ++ [Load "led2_dev"; Load "led2_pin";
           GpioPinSet (globals boot_world "led2_dev")
                      (globals boot_world "led2_pin") 1;
           Printk led2_on_text; KSleep 100] /\
     gpio_level (cfg_world cfg) (globals boot_world "led2_dev")
                (globals boot_world "led2_pin")
     = true) /\
  (exists w',
     run reliable 0%nat 32 Thread1.led2_thread_body boot_world
       = Some (tt, w') /\
     (forall d p,
        gpio_level w' d p =
          if is_led boot_world "led2_dev" "led2_pin" d p then false
          else gpio_level boot_world d p) /\
     (forall x, globals w' x = globals boot_world x) /\
     sync_mutex w' = None).
Proof.
  apply (led2_turn_pulses reliable boot_world). reflexivity.
Defined.

(** X11. Start-up and first turns compose: when the three LEDs initialise,
    whichever worker runs first after main has returned finds its LED
    off; a first turn of led0_thread or led1_thread switches its LED on
    and reports ON, a first turn of led2_thread writes its two texts and
    ends with its LED off; no separator is written yet. *)
Theorem first_turns_after_startup (P : platform) (G : Z)
  (s0 s1 s2 : gpio_dt_spec) (t : tid) :
  init_ok P G s0 = true -> init_ok P G s1 = true -> init_ok P G s2 = true ->
  exists w,
    run P 0%nat 64 (Thread1.main G s0 s1 s2) boot_world = Some (0, w) /\
    (exists w',
       run P t 32 Thread1.led0_thread_body w = Some (tt, w') /\
       gpio_level w' (port s0) (pin s0) = true /\
       printed (calls w') =
         printed (calls w) ++ [led_status "T1" "LED0" "500ms" 1]) /\
    (exists w',
       run P t 32 Thread1.led1_thread_body w = Some (tt, w') /\
       gpio_level w' (port s1) (pin s1) = true /\
       printed (calls w') =
         printed (calls w) ++ [led_status "T2" "LED1" "200ms" 1]) /\
    (exists w',
       run P t 32 Thread1.led2_thread_body w = Some (tt, w') /\
       gpio_level w' (port s2) (pin s2) = false /\
       printed (calls w') =
         printed (calls w) ++ [led2_on_text; led2_off_text]).
Proof.
  intros H0 H1 H2.
  destruct (led_main_run P G s0 s1 s2 H0 H1 H2)
    as (w & Hrun & _ & (G0 & P0 & G1 & P1 & G2 & P2) & Hlev & Hm & Hc).
  exists w. split; [exact Hrun|].
  assert (Hsep : separator_after (sync_counter w) = [])
    by (rewrite Hc; reflexivity).
  split; [|split].
  - destruct (led0_turn P t w Hm) as (w' & Hr & Hp & Hl & _).
    exists w'. split; [exact Hr|]. split.
    + rewrite Hl. unfold is_led. rewrite G0, P0, !Z.eqb_refl, Hlev.
      reflexivity.
    + rewrite Hp, Hsep, Hlev. reflexivity.
  - destruct (led1_turn P t w Hm) as (w' & Hr & Hp & Hl & _).
    exists w'. split; [exact Hr|]. split.
    + rewrite Hl. unfold is_led. rewrite G1, P1, !Z.eqb_refl, Hlev.
      reflexivity.
    + rewrite Hp, Hsep, Hlev. reflexivity.
  - destruct (led2_turn P t w Hm) as (w' & Hr & Hp & Hl & _).
    exists w'. split; [exact Hr|]. split.
    + rewrite Hl. unfold is_led. rewrite G2, P2, !Z.eqb_refl. reflexivity.
    + rewrite Hp, Hsep. reflexivity.
Qed.

Lemma main_starts_workers_witness :
  exists w,
    run reliable 0%nat 64
        (Thread1.main sample_output_inactive
           (sample_led 0) (sample_led 1) (sample_led 2))
        boot_world = Some (0, w) /\
    printed (calls w) =
      ["[MAIN] Starting LED thread demo" +++ LF;
       "[LED0] Initialized on pin " +++ fmt_d (pin (sample_led 0)) +++ LF;
       "[LED1] Initialized on pin " +++ fmt_d (pin (sample_led 1)) +++ LF;
       "[LED2] Initialized on pin " +++ fmt_d (pin (sample_led 2)) +++ LF
         +++ LF;
       "[T1] LED0 thread started (500ms toggle)" +++ LF;
       "[T2] LED1 thread started (200ms toggle)" +++ LF;
       "[T3] LED2 thread started (burst 2x then 800ms rest)" +++ LF +++ LF] /\
    filter (fun c => is_mutex_init c || is_thread_create c) (calls w) =
      [KMutexInit; KThreadCreate "led0_thread" 5;
       KThreadCreate "led1_thread" 5; KThreadCreate "led2_thread" 5] /\
    filter is_gpio_write (calls w) =
      [GpioPinConfigure (port (sample_led 0)) (pin (sample_led 0))
         (configure_flags sample_output_inactive (sample_led 0));
       GpioPinSet (port (sample_led 0)) (pin (sample_led 0)) 0;
       GpioPinConfigure (port (sample_led 1)) (pin (sample_led 1))
         (configure_flags sample_output_inactive (sample_led 1));
       GpioPinSet (port (sample_led 1)) (pin (sample_led 1)) 0;
       GpioPinConfigure (port (sample_led 2)) (pin (sample_led 2))
         (configure_flags sample_output_inactive (sample_led 2));
       GpioPinSet (port (sample_led 2)) (pin (sample_led 2)) 0] /\
    (globals w "led0_dev" = port (sample_led 0) /\
     globals w "led0_pin" = pin (sample_led 0) /\
     globals w "led1_dev" = port (sample_led 1) /\
     globals w "led1_pin" = pin (sample_led 1) /\
     globals w "led2_dev" = port (sample_led 2) /\
     globals w "led2_pin" = pin (sample_led 2)) /\
    (forall d p, gpio_level w d p = false) /\
    arrivals w = 0%nat /\
    sync_mutex w = None /\
    sync_counter w = 0.
Proof.
  apply (main_starts_workers reliable sample_output_inactive
           (sample_led 0) (sample_led 1) (sample_led 2));
    reflexivity.
Defined.

Lemma led_toggle_turn_inverts_and_reports_witness :
  toggles_and_reports reliable 1%nat boot_world Thread1.led0_thread_body
    "led0_dev" "led0_pin" "T1" "LED0" "500ms" /\
  toggles_and_reports reliable 1%nat boot_world Thread1.led1_thread_body
    "led1_dev" "led1_pin" "T2" "LED1" "200ms".
Proof.
  apply (led_toggle_turn_inverts_and_reports reliable 1%nat boot_world).
  reflexivity.
Defined.

Lemma led_toggle_twice_restores_witness :
  restores_after_two_turns reliable 1%nat boot_world Thread1.led0_thread_body
    "led0_dev" "led0_pin" "T1" "LED0" "500ms" /\
  restores_after_two_turns reliable 1%nat boot_world Thread1.led1_thread_body
    "led1_dev" "led1_pin" "T2" "LED1" "200ms".
Proof.
  apply (led_toggle_twice_restores reliable 1%nat boot_world).
  reflexivity.
Defined.

Lemma first_turns_after_startup_witness :
  exists w,
    run reliable 0%nat 64
        (Thread1.main sample_output_inactive
           (sample_led 0) (sample_led 1) (sample_led 2))
        boot_world = Some (0, w) /\
    (exists w',
       run reliable 1%nat 32 Thread1.led0_thread_body w = Some (tt, w') /\
       gpio_level w' (port (sample_led 0)) (pin (sample_led 0)) = true /\
       printed (calls w') =
         printed (calls w) ++ [led_status "T1" "LED0" "500ms" 1]) /\
    (exists w',
       run reliable 1%nat 32 Thread1.led1_thread_body w = Some (tt, w') /\
       gpio_level w' (port (sample_led 1)) (pin (sample_led 1)) = true /\
       printed (calls w') =
         printed (calls w) ++ [led_status "T2" "LED1" "200ms" 1]) /\
    (exists w',
       run reliable 1%nat 32 Thread1.led2_thread_body w = Some (tt, w') /\
       gpio_level w' (port (sample_led 2)) (pin (sample_led 2)) = false /\
       printed (calls w') =
         printed (calls w) ++ [led2_on_text; led2_off_text]).
Proof.
  apply (first_turns_after_startup reliable sample_output_inactive
           (sample_led 0) (sample_led 1) (sample_led 2) 1%nat);
    reflexivity.
Defined.

(** ** What the worker threads never do *)

(** X12. The answer of gpio_pin_get is read as a level whatever it is: any
    answer but 0, a negative error code included, makes led0_thread and
    led1_thread report ON. *)
Theorem gpio_get_answer_read_as_level (ans : nat -> Z) (n : nat) :
  ans (n + 5)%nat <> 0 ->
  printed (before_arrival (turn_at ans n led_T1))
  = ["[T1] LED0 is now ON | [T1] sleep 500ms" +++ LF] /\
  printed (before_arrival (turn_at ans n led_T2))
  = ["[T2] LED1 is now ON | [T2] sleep 200ms" +++ LF].
Proof.
  intros H. apply Z.eqb_neq in H.
  unfold turn_at. cbn [w_body led_T1 led_T2].
  rewrite !(calls_of_at ans n 32).
  rewrite led0_thread_body_calls, led1_thread_body_calls.
  cbv beta. unfold led_status. rewrite H. split; reflexivity.
Qed.

Lemma gpio_get_answer_read_as_level_witness :
  printed (before_arrival (turn_at (fun _ => -5) 0 led_T1))
  = ["[T1] LED0 is now ON | [T1] sleep 500ms" +++ LF] /\
  printed (before_arrival (turn_at (fun _ => -5) 0 led_T2))
  = ["[T2] LED1 is now ON | [T2] sleep 200ms" +++ LF].
Proof.
  apply (gpio_get_answer_read_as_level (fun _ => -5) 0). discriminate.
Defined.

(** X13. Start-up is left to main: no loop turn of any of the six worker
    threads stores to a global, initialises the mutex, creates a thread,
    checks a device or configures a pin. *)
Theorem workers_make_no_setup_call :
  Forall (fun wt => in_every_turn wt no_setup_at)
         (priority_demo_threads ++ led_demo_threads).
Proof.
  each_thread; intros ans n; unfold no_setup_at, turn_at;
    cbn [wt_worker thread1_fn_worker thread2_fn_worker main_worker
         led0_thread_worker led1_thread_worker led2_thread_worker
         w_body priority_T1 priority_T2 priority_MAIN led_T1 led_T2 led_T3];
    rewrite (calls_of_at ans n 32);
    rewrite ?thread1_fn_body_calls, ?thread2_fn_body_calls, ?main_body_calls,
      ?led0_thread_body_calls, ?led1_thread_body_calls,
      ?led2_thread_body_calls;
    cbn [fst]; unfold fire_calls;
    match goal with
    | |- context [?x >=? 3] => destruct (x >=? 3)
    end; reflexivity.
Qed.

(** *** Threads that never return *)

Lemma calls_of_bind_never ans f : forall n A B (p : itree zephyrE A)
    (k : A -> itree zephyrE B),
  (forall r n' f', (f' <= f)%nat -> snd (calls_of ans n' f' (k r)) = None) ->
  snd (calls_of ans n f (ITree.bind p k)) = None.
Proof.
  induction f as [|f IH]; intros n A B p k Hk.
  - destruct (observe p) as [r | p' | X e h] eqn:Hp.
    + rewrite (calls_of_observe ans n 0 _ (ITree.bind p k) (k r));
        [apply Hk; lia|].
      rewrite observe_bind, Hp. reflexivity.
    + unfold calls_of. rewrite observe_bind, Hp. reflexivity.
    + unfold calls_of. rewrite observe_bind, Hp. reflexivity.
  - destruct (observe p) as [r | p' | X e h] eqn:Hp.
    + rewrite (calls_of_observe ans n (S f) _ (ITree.bind p k) (k r));
        [apply Hk; lia|].
      rewrite observe_bind, Hp. reflexivity.
    + rewrite (calls_of_observe ans n (S f) _ (ITree.bind p k)
                 (Tau (ITree.bind p' k)));
        [|rewrite observe_bind, Hp; reflexivity].
      rewrite calls_of_tau. apply IH. intros; apply Hk; lia.
    + destruct e.
      rewrite (calls_of_observe ans n (S f) _ (ITree.bind p k)
                 (Vis (Call c) (fun x => ITree.bind (h x) k)));
        [|rewrite observe_bind, Hp; reflexivity].
      rewrite calls_of_vis. cbn [snd]. apply IH. intros; apply Hk; lia.
Qed.

Lemma forever_never_returns ans R (body : itree zephyrE unit) :
  forall f f' n, (f' <= f)%nat ->
  snd (calls_of ans n f' (ITree.forever body : itree zephyrE R)) = None.
Proof.
  induction f as [|f IH]; intros f' n Hf; rewrite calls_of_forever;
    apply calls_of_bind_never; intros [] n' f'' Hf'';
    (destruct f'' as [|f'']; [reflexivity|]).
  - lia.
  - rewrite calls_of_tau. apply IH. lia.
Qed.

(** X14. None of the six worker threads ever returns, whatever the kernel
    answers and however long the thread is followed. *)
Theorem worker_threads_never_return :
  Forall (fun wt => forall ans fuel,
            snd (calls_of ans 0 fuel (wt_code wt)) = None)
         (priority_demo_threads ++ led_demo_threads).
Proof.
  repeat first [apply Forall_cons | apply Forall_nil]; intros ans fuel;
    cbn [wt_code thread1_fn_worker thread2_fn_worker main_worker
         led0_thread_worker led1_thread_worker led2_thread_worker];
    try (apply (forever_never_returns ans unit _ fuel fuel 0%nat); lia).
  unfold SimpleThread.main. unfold_api.
  do 6 (destruct fuel as [|fuel];
        [reflexivity | rewrite calls_of_call_bind; cbn [snd]]).
  apply (forever_never_returns ans Z _ fuel fuel). lia.
Qed.
